(** * bday: movement, collision and proximity state machine

    A shallow embedding of the gameplay core of the birthday game
    (js/utils/ValidationUtils.js, js/entities/GameObject.js,
    js/entities/Player.js, js/entities/Dog.js, js/entities/Mailbox.js,
    js/systems/CollisionSystem.js, js/systems/InputManager.js,
    js/utils/EventEmitter.js, js/utils/ErrorHandler.js, js/core/Game.js
    and js/config/gameConfig.js) together with the properties its
    specification states about it and further properties read off the
    code.

    Conventions of the embedding

    - A JavaScript number is either [NaN] or an exact rational [Fin q].
      Rounding and the two infinities are outside the model; every
      literal of the embedded code is a rational and the code only adds,
      subtracts, multiplies, halves and compares.
    - [Math.sqrt] is kept symbolic: [Sqrt q] stands for the real square
      root of the rational [q], and is only ever compared with a number;
      [root_lt_real] relates the comparison to the square root of the
      real numbers.
    - [Date.now()] is an extra argument [now : Z] (milliseconds).
    - Audio elements are external objects; what a method does to them is
      returned as a list of effects, in program order.
    - A thrown exception is the [Throw] case of [result]. *)

From Stdlib Require Import QArith Qreals Reals Psatz ZArith Lia List String Bool.
Import ListNotations.

Local Open Scope Q_scope.

(** ** JavaScript numbers *)

Module JS.

Inductive num : Type :=
| NaN
| Fin (q : Q).

(** A square root that has not been rounded. *)
Inductive root : Type :=
| RNaN
| Sqrt (q : Q).

Inductive result (A : Type) : Type :=
| Ok (a : A)
| Throw (e : string).
Arguments Ok {A} a.
Arguments Throw {A} e.

Definition Qlt_bool (a b : Q) : bool := negb (Qle_bool b a).

Definition add (a b : num) : num :=
  match a, b with
  | Fin x, Fin y => Fin (x + y)
  | _, _ => NaN
  end.

Definition sub (a b : num) : num :=
  match a, b with
  | Fin x, Fin y => Fin (x - y)
  | _, _ => NaN
  end.

Definition mul (a b : num) : num :=
  match a, b with
  | Fin x, Fin y => Fin (x * y)
  | _, _ => NaN
  end.

(** [a / b]; the divisors of the embedded code are the non-zero
    constants 2 and 500, a zero divisor (an infinity or NaN in
    JavaScript) is mapped to [NaN]. *)
Definition div (a b : num) : num :=
  match a, b with
  | Fin x, Fin y => if Qeq_bool y 0 then NaN else Fin (x / y)
  | _, _ => NaN
  end.

(** Comparisons: any comparison with NaN is false. *)
Definition lt (a b : num) : bool :=
  match a, b with
  | Fin x, Fin y => Qlt_bool x y
  | _, _ => false
  end.

Definition gt (a b : num) : bool := lt b a.

Definition le (a b : num) : bool :=
  match a, b with
  | Fin x, Fin y => Qle_bool x y
  | _, _ => false
  end.

Definition ge (a b : num) : bool := le b a.

(** [a !== b] on numbers: NaN differs from everything, itself included. *)
Definition strict_neq (a b : num) : bool :=
  match a, b with
  | Fin x, Fin y => negb (Qeq_bool x y)
  | _, _ => true
  end.

(** [Math.max] and [Math.min] of two arguments. *)
Definition max (a b : num) : num :=
  match a, b with
  | Fin x, Fin y => Fin (if Qlt_bool x y then y else x)
  | _, _ => NaN
  end.

Definition min (a b : num) : num :=
  match a, b with
  | Fin x, Fin y => Fin (if Qlt_bool y x then y else x)
  | _, _ => NaN
  end.

(** [Math.sqrt]. *)
Definition sqrt (a : num) : root :=
  match a with
  | Fin x => if Qlt_bool x 0 then RNaN else Sqrt x
  | NaN => RNaN
  end.

(** [Math.sqrt(q) < t]: for [0 <= q], the real root of [q] is below
    [t] exactly when [t] is positive and [q < t * t]. *)
Definition root_lt (r : root) (t : num) : bool :=
  match r, t with
  | Sqrt q, Fin y => Qlt_bool 0 y && Qlt_bool q (y * y)
  | _, _ => false
  end.

End JS.

Import JS.

(** ** js/config/gameConfig.js *)

Module Rect.
Record t : Type := mk { x : num; y : num; width : num; height : num }.
End Rect.

Module Point.
Record t : Type := mk { x : num; y : num }.
End Point.

Module CONFIG.

Module CANVAS.
Definition WIDTH : num := Fin 1094.
Definition HEIGHT : num := Fin 1112.
End CANVAS.

Module PLAYER.
Definition INITIAL_X : num := Fin 465.
Definition INITIAL_Y : num := Fin 210.
Definition SPEED : num := Fin 2.
Definition WIDTH : num := Fin 16.
Definition HEIGHT : num := Fin 32.
End PLAYER.

Module MAILBOX.
Definition X : num := Fin 750.
Definition Y : num := Fin 330.
Definition INTERACTION_DISTANCE : num := Fin 120.
End MAILBOX.

Module DOGS.
Definition INTERACTION_DISTANCE : num := Fin 100.
Definition ME_INTERACTION_DISTANCE : num := Fin 150.
End DOGS.

Definition box (x y w h : Q) : Rect.t := Rect.mk (Fin x) (Fin y) (Fin w) (Fin h).

Definition COLLISION_BOXES : list Rect.t :=
  [ box 0 0 1094 30;
    box 0 0 10 1112;
    box 1030 0 30 1112;
    box 0 860 600 300;
    box 0 950 1200 300;
    box 0 170 1200 10;
    box 550 0 10 300;
    box 700 0 10 300;
    box 560 300 270 10;
    box 200 0 10 300;
    box 380 260 5 50;
    box 930 450 130 350;
    box 0 300 370 10;
    box 0 260 370 10 ].

Module PERFORMANCE.
Definition BUMP_SOUND_COOLDOWN : Z := 150%Z.
End PERFORMANCE.

End CONFIG.

(** ** js/utils/ValidationUtils.js *)

Module ValidationUtils.

Definition clamp (value min max : num) : num :=
  JS.min (JS.max value min) max.

Definition calculateDistance (x1 y1 x2 y2 : num) : root :=
  let dx := sub x1 x2 in
  let dy := sub y1 y2 in
  JS.sqrt (add (mul dx dx) (mul dy dy)).

Definition isColliding (rect1 rect2 : Rect.t) : bool :=
  lt (Rect.x rect1) (add (Rect.x rect2) (Rect.width rect2)) &&
  gt (add (Rect.x rect1) (Rect.width rect1)) (Rect.x rect2) &&
  lt (Rect.y rect1) (add (Rect.y rect2) (Rect.height rect2)) &&
  gt (add (Rect.y rect1) (Rect.height rect1)) (Rect.y rect2).


Definition getRectCenter (rect : Rect.t) : Point.t :=
  {| Point.x := add (Rect.x rect) (div (Rect.width rect) (Fin 2));
     Point.y := add (Rect.y rect) (div (Rect.height rect) (Fin 2)) |}.

(** [null] is [None]. *)
Definition getRectOverlap (rect1 rect2 : Rect.t) : option Rect.t :=
  if negb (isColliding rect1 rect2) then None
  else
    let left := JS.max (Rect.x rect1) (Rect.x rect2) in
    let top := JS.max (Rect.y rect1) (Rect.y rect2) in
    let right := JS.min (add (Rect.x rect1) (Rect.width rect1))
                        (add (Rect.x rect2) (Rect.width rect2)) in
    let bottom := JS.min (add (Rect.y rect1) (Rect.height rect1))
                         (add (Rect.y rect2) (Rect.height rect2)) in
    Some {| Rect.x := left; Rect.y := top;
            Rect.width := sub right left; Rect.height := sub bottom top |}.

Definition lerp (start end_ t : num) : num :=
  add start (mul (sub end_ start) (clamp t (Fin 0) (Fin 1))).

Definition isInRange (value min max : num) : bool :=
  ge value min && le value max.

End ValidationUtils.

(** ** js/entities/GameObject.js *)

Module GameObject.

Record t : Type := mk {
  x : num;
  y : num;
  width : num;
  height : num;
  id : string
}.

(** The constructor; [fresh] is the identifier [generateId] draws. *)
Definition new (x0 y0 w h : num) (fresh : string) : t :=
  {| x := ValidationUtils.clamp x0 (Fin 0) (sub CONFIG.CANVAS.WIDTH w);
     y := ValidationUtils.clamp y0 (Fin 0) (sub CONFIG.CANVAS.HEIGHT h);
     width := w;
     height := h;
     id := fresh |}.

Definition getBounds (o : t) : Rect.t :=
  {| Rect.x := x o; Rect.y := y o; Rect.width := width o; Rect.height := height o |}.

Definition getCenter (o : t) : Point.t :=
  {| Point.x := add (x o) (div (width o) (Fin 2));
     Point.y := add (y o) (div (height o) (Fin 2)) |}.

Definition distanceTo (o other : t) : root :=
  let center1 := getCenter o in
  let center2 := getCenter other in
  ValidationUtils.calculateDistance
    (Point.x center1) (Point.y center1) (Point.x center2) (Point.y center2).

Definition isCollidingWith (o other : t) : bool :=
  ValidationUtils.isColliding (getBounds o) (getBounds other).

Definition setPosition (o : t) (x0 y0 : num) : t :=
  {| x := ValidationUtils.clamp x0 (Fin 0) (sub CONFIG.CANVAS.WIDTH (width o));
     y := ValidationUtils.clamp y0 (Fin 0) (sub CONFIG.CANVAS.HEIGHT (height o));
     width := width o;
     height := height o;
     id := id o |}.

Definition moveBy (o : t) (dx dy : num) : t :=
  setPosition o (add (x o) dx) (add (y o) dy).

End GameObject.

(** ** js/entities/Player.js *)

Module Player.

Record t : Type := mk {
  obj : GameObject.t;
  speed : num;
  direction : string;
  lastPosition : Point.t
}.

Definition x (p : t) : num := GameObject.x (obj p).
Definition y (p : t) : num := GameObject.y (obj p).
Definition width (p : t) : num := GameObject.width (obj p).
Definition height (p : t) : num := GameObject.height (obj p).

Definition new (fresh : string) : t :=
  let o := GameObject.new CONFIG.PLAYER.INITIAL_X CONFIG.PLAYER.INITIAL_Y
             CONFIG.PLAYER.WIDTH CONFIG.PLAYER.HEIGHT fresh in
  {| obj := o;
     speed := CONFIG.PLAYER.SPEED;
     direction := "down";
     lastPosition := {| Point.x := GameObject.x o; Point.y := GameObject.y o |} |}.

Definition canMoveTo (p : t) (x0 y0 : num) (collisionBoxes : list Rect.t) : bool :=
  let playerBounds :=
    {| Rect.x := x0; Rect.y := y0; Rect.width := width p; Rect.height := height p |} in
  if lt x0 (Fin 0) || lt y0 (Fin 0) ||
     gt (add x0 (width p)) CONFIG.CANVAS.WIDTH ||
     gt (add y0 (height p)) CONFIG.CANVAS.HEIGHT
  then false
  else negb (existsb (fun box => ValidationUtils.isColliding playerBounds box)
                     collisionBoxes).

(** [move] returns the player after the call and the boolean it returns. *)
Definition move (p : t) (dx dy : num) (collisionBoxes : list Rect.t) : t * bool :=
  let p1 :=
    {| obj := obj p; speed := speed p; direction := direction p;
       lastPosition := {| Point.x := x p; Point.y := y p |} |} in
  let newX := add (x p1) dx in
  let newY := add (y p1) dy in
  if canMoveTo p1 newX newY collisionBoxes then
    ({| obj :=
          {| GameObject.x :=
               ValidationUtils.clamp newX (Fin 0)
                 (sub CONFIG.CANVAS.WIDTH (width p1));
             GameObject.y :=
               ValidationUtils.clamp newY (Fin 0)
                 (sub CONFIG.CANVAS.HEIGHT (height p1));
             GameObject.width := width p1;
             GameObject.height := height p1;
             GameObject.id := GameObject.id (obj p1) |};
        speed := speed p1;
        direction := direction p1;
        lastPosition := lastPosition p1 |}, true)
  else (p1, false).

Definition setDirection (p : t) (d : string) : t :=
  let validDirections := ["up"; "down"; "left"; "right"]%string in
  if existsb (String.eqb d) validDirections then
    {| obj := obj p; speed := speed p; direction := d;
       lastPosition := lastPosition p |}
  else p.

Definition isMoving (p : t) : bool :=
  strict_neq (x p) (Point.x (lastPosition p)) ||
  strict_neq (y p) (Point.y (lastPosition p)).

Definition getSpeed (p : t) : num := speed p.

Definition setSpeed (p : t) (s : num) : t :=
  {| obj := obj p; speed := JS.max (Fin 0) s; direction := direction p;
     lastPosition := lastPosition p |}.

Definition getDirectionVector (p : t) : Point.t :=
  if String.eqb (direction p) "up" then Point.mk (Fin 0) (Fin (-1))
  else if String.eqb (direction p) "down" then Point.mk (Fin 0) (Fin 1)
  else if String.eqb (direction p) "left" then Point.mk (Fin (-1)) (Fin 0)
  else if String.eqb (direction p) "right" then Point.mk (Fin 1) (Fin 0)
  else Point.mk (Fin 0) (Fin 0).

Definition reset (p : t) : t :=
  {| obj :=
       {| GameObject.x := CONFIG.PLAYER.INITIAL_X;
          GameObject.y := CONFIG.PLAYER.INITIAL_Y;
          GameObject.width := width p;
          GameObject.height := height p;
          GameObject.id := GameObject.id (obj p) |};
     speed := speed p;
     direction := "down";
     lastPosition :=
       {| Point.x := CONFIG.PLAYER.INITIAL_X;
          Point.y := CONFIG.PLAYER.INITIAL_Y |} |}.

(** The object [getState] builds; [setState] reads [x], [y],
    [direction], [speed] and [lastPosition] of its argument.  A field
    that is missing from an argument of [setState] is falsy, like NaN
    and the empty string; [lastPosition] may be absent. *)
Record State : Type := mkState {
  st_id : string;
  st_x : num;
  st_y : num;
  st_width : num;
  st_height : num;
  st_type : string;
  st_direction : string;
  st_speed : num;
  st_lastPosition : option Point.t
}.

(** Truthiness of a number and of a string. *)
Definition truthy (a : num) : bool :=
  match a with
  | Fin q => negb (Qeq_bool q 0)
  | NaN => false
  end.

Definition nonEmpty (s : string) : bool := negb (String.eqb s "").

Definition getState (p : t) : State :=
  {| st_id := GameObject.id (obj p);
     st_x := x p; st_y := y p;
     st_width := width p; st_height := height p;
     st_type := "Player";
     st_direction := direction p;
     st_speed := speed p;
     st_lastPosition :=
       Some {| Point.x := Point.x (lastPosition p);
               Point.y := Point.y (lastPosition p) |} |}.

Definition setState (p : t) (state : State) : t :=
  let x1 := if truthy (st_x state) then st_x state else x p in
  let y1 := if truthy (st_y state) then st_y state else y p in
  {| obj :=
       {| GameObject.x := x1; GameObject.y := y1;
          GameObject.width := width p; GameObject.height := height p;
          GameObject.id := GameObject.id (obj p) |};
     direction :=
       if nonEmpty (st_direction state) then st_direction state
       else direction p;
     speed := if truthy (st_speed state) then st_speed state else speed p;
     lastPosition :=
       match st_lastPosition state with
       | Some lp => lp
       | None => {| Point.x := x1; Point.y := y1 |}
       end |}.

End Player.

(** ** js/systems/CollisionSystem.js *)

Module CollisionSystem.

Record t : Type := mk { collisionBoxes : list Rect.t }.

Definition new : t := {| collisionBoxes := [] |}.

(** The result object of [getMovementResponse]; the first branch of the
    method builds it without [canMoveX] and [canMoveY]. *)
Record Response : Type := mkResponse {
  canMove : bool;
  adjustedX : num;
  adjustedY : num;
  canMoveX : option bool;
  canMoveY : option bool
}.

(** [collisionBoxes || this.collisionBoxes]: an array, even an empty
    one, is truthy, so only an absent argument falls back. *)
Definition boxesOf (cs : t) (boxes : option (list Rect.t)) : list Rect.t :=
  match boxes with
  | Some b => b
  | None => collisionBoxes cs
  end.

(** The callback of [some] cannot throw on well-formed rectangles, so
    the [catch] branch does not appear. *)
Definition checkCollision (cs : t) (bounds : Rect.t)
    (boxes : option (list Rect.t)) : bool :=
  existsb (fun box => ValidationUtils.isColliding bounds box) (boxesOf cs boxes).

Definition wouldCollide (cs : t) (fromX fromY toX toY w h : num)
    (boxes : option (list Rect.t)) : bool :=
  let targetBounds :=
    {| Rect.x := toX; Rect.y := toY; Rect.width := w; Rect.height := h |} in
  checkCollision cs targetBounds boxes.

(** [collisionBoxes || []]. *)
Definition setCollisionBoxes (cs : t) (boxes : option (list Rect.t)) : t :=
  {| collisionBoxes := match boxes with Some b => b | None => [] end |}.

Definition checkPointCollision (cs : t) (x y : num)
    (boxes : option (list Rect.t)) : bool :=
  existsb (fun box =>
             ge x (Rect.x box) && le x (add (Rect.x box) (Rect.width box)) &&
             ge y (Rect.y box) && le y (add (Rect.y box) (Rect.height box)))
          (boxesOf cs boxes).

Definition getIntersectingBoxes (cs : t) (bounds : Rect.t)
    (boxes : option (list Rect.t)) : list Rect.t :=
  filter (fun box => ValidationUtils.isColliding bounds box) (boxesOf cs boxes).

(** [null] and other non-objects are [None]. *)
Definition addCollisionBox (cs : t) (collisionBox : option Rect.t) : t :=
  match collisionBox with
  | Some b => {| collisionBoxes := collisionBoxes cs ++ [b] |}
  | None => cs
  end.

(** [index] is an integer; [splice(index, 1)] drops that element. *)
Definition removeCollisionBox (cs : t) (index : Z) : t :=
  if ((0 <=? index) && (index <? Z.of_nat (List.length (collisionBoxes cs))))%Z
  then
    {| collisionBoxes :=
         firstn (Z.to_nat index) (collisionBoxes cs) ++
         skipn (S (Z.to_nat index)) (collisionBoxes cs) |}
  else cs.

Definition clearCollisionBoxes (cs : t) : t := {| collisionBoxes := [] |}.

Definition getCollisionBoxes (cs : t) : list Rect.t := collisionBoxes cs.

Definition getMovementResponse (cs : t) (entity : GameObject.t)
    (deltaX deltaY : num) (boxes : option (list Rect.t)) : Response :=
  let currentBounds := GameObject.getBounds entity in
  let targetX := add (Rect.x currentBounds) deltaX in
  let targetY := add (Rect.y currentBounds) deltaY in
  let collides :=
    wouldCollide cs (Rect.x currentBounds) (Rect.y currentBounds)
      targetX targetY
      (Rect.width currentBounds) (Rect.height currentBounds) boxes in
  if negb collides then
    {| canMove := true; adjustedX := targetX; adjustedY := targetY;
       canMoveX := None; canMoveY := None |}
  else
    let okX :=
      negb (wouldCollide cs (Rect.x currentBounds) (Rect.y currentBounds)
              targetX (Rect.y currentBounds)
              (Rect.width currentBounds) (Rect.height currentBounds) boxes) in
    let okY :=
      negb (wouldCollide cs (Rect.x currentBounds) (Rect.y currentBounds)
              (Rect.x currentBounds) targetY
              (Rect.width currentBounds) (Rect.height currentBounds) boxes) in
    {| canMove := false;
       adjustedX := if okX then targetX else Rect.x currentBounds;
       adjustedY := if okY then targetY else Rect.y currentBounds;
       canMoveX := Some okX;
       canMoveY := Some okY |}.

End CollisionSystem.

(** ** js/entities/Dog.js *)

Module Dog.

Inductive State : Type := sit | jump.

Definition State_eqb (a b : State) : bool :=
  match a, b with
  | sit, sit | jump, jump => true
  | _, _ => false
  end.

(** What a method does to the audio elements it is handed. *)
Inductive effect : Type :=
| BgVolume (v : Q)     (* bgAudio.volume = v *)
| SpecialRestart       (* specialAudio.currentTime = 0; specialAudio.play() *)
| SpecialStop          (* specialAudio.pause(); specialAudio.currentTime = 0 *)
| Bark (who : string). (* this.audio.play() *)

(** The geometry entries of a dog's configuration object. *)
Record Config : Type := mkConfig {
  cfg_x : num;
  cfg_y : num;
  cfg_width : num;
  cfg_height : num;
  cfg_scale : num
}.

(** The sprite, the frames and the draw offsets only feed the renderer
    and are left out; [audio] records whether [setAudio] attached an
    element. *)
Record t : Type := mk {
  obj : GameObject.t;
  name : string;
  originalWidth : num;
  originalHeight : num;
  scale : num;
  state : State;
  barked : bool;
  audio : bool;
  stateChangeTime : Z;
  animationDuration : Z
}.

Definition new (name0 : string) (config : Config) (fresh : string) : t :=
  {| obj := GameObject.new (cfg_x config) (cfg_y config)
              (mul (cfg_width config) (cfg_scale config))
              (mul (cfg_height config) (cfg_scale config)) fresh;
     name := name0;
     originalWidth := cfg_width config;
     originalHeight := cfg_height config;
     scale := cfg_scale config;
     state := sit;
     barked := false;
     audio := false;
     stateChangeTime := 0%Z;
     animationDuration := 500%Z |}.

Definition setAudio (d : t) (a : bool) : t :=
  {| obj := obj d; name := name d; originalWidth := originalWidth d;
     originalHeight := originalHeight d; scale := scale d;
     state := state d; barked := barked d; audio := a;
     stateChangeTime := stateChangeTime d;
     animationDuration := animationDuration d |}.

Definition setBarked (d : t) (b : bool) : t :=
  {| obj := obj d; name := name d; originalWidth := originalWidth d;
     originalHeight := originalHeight d; scale := scale d;
     state := state d; barked := b; audio := audio d;
     stateChangeTime := stateChangeTime d;
     animationDuration := animationDuration d |}.

Definition isMe (d : t) : bool := String.eqb (name d) "Me".

Definition threshold (d : t) : num :=
  if isMe d then CONFIG.DOGS.ME_INTERACTION_DISTANCE
  else CONFIG.DOGS.INTERACTION_DISTANCE.

Definition setState (d : t) (newState : State) (now : Z) : t :=
  if negb (State_eqb (state d) newState) then
    {| obj := obj d; name := name d; originalWidth := originalWidth d;
       originalHeight := originalHeight d; scale := scale d;
       state := newState; barked := barked d; audio := audio d;
       stateChangeTime := now;
       animationDuration := animationDuration d |}
  else d.

Definition activate (d : t) (specialAudio bgAudio : bool) (now : Z)
    : t * list effect :=
  if isMe d && negb (State_eqb (state d) jump) then
    (setBarked (setState d jump now) true,
     (if bgAudio then [BgVolume 0] else []) ++
     (if specialAudio then [SpecialRestart] else []))
  else if negb (isMe d) && negb (barked d) then
    (setBarked (setState d jump now) true,
     if audio d then [Bark (name d)] else [])
  else (d, []).

Definition deactivate (d : t) (specialAudio bgAudio : bool) (now : Z)
    : t * list effect :=
  if isMe d && negb (State_eqb (state d) sit) then
    (setBarked (setState d sit now) false,
     (if specialAudio then [SpecialStop] else []) ++
     (if bgAudio then [BgVolume 1] else []))
  else if negb (isMe d) then
    (setBarked (setState d sit now) false, [])
  else (d, []).

(** The [onended] handler that [activate] installs on the special
    audio; the browser runs it when the song finishes. *)
Definition specialAudio_onended (d : t) (bgAudio : bool) : list effect :=
  if State_eqb (state d) jump && bgAudio then [BgVolume 1] else [].

Definition isPlayerInRange (d : t) (player : GameObject.t) : bool :=
  let distance := GameObject.distanceTo (obj d) player in
  root_lt distance (threshold d).

(** [update]; an absent player makes [other.getCenter()] throw before
    anything is written. *)
Definition update (d : t) (player : option GameObject.t)
    (specialAudio bgAudio : bool) (now : Z) : result (t * list effect) :=
  match player with
  | None => Throw "TypeError"
  | Some p =>
      let distance := GameObject.distanceTo (obj d) p in
      if root_lt distance (threshold d) then
        Ok (activate d specialAudio bgAudio now)
      else
        Ok (deactivate d specialAudio bgAudio now)
  end.

Definition getAnimationProgress (d : t) (now : Z) : num :=
  let elapsed := (now - stateChangeTime d)%Z in
  JS.min (div (Fin (inject_Z elapsed)) (Fin (inject_Z (animationDuration d))))
         (Fin 1).

Definition reset (d : t) (now : Z) : t :=
  let d1 := setBarked (setState d sit now) false in
  {| obj := obj d1; name := name d1; originalWidth := originalWidth d1;
     originalHeight := originalHeight d1; scale := scale d1;
     state := state d1; barked := barked d1; audio := audio d1;
     stateChangeTime := 0%Z;
     animationDuration := animationDuration d1 |}.

Definition getInteractionBounds (d : t) : Rect.t :=
  let center := GameObject.getCenter (obj d) in
  {| Rect.x := sub (Point.x center) (threshold d);
     Rect.y := sub (Point.y center) (threshold d);
     Rect.width := mul (threshold d) (Fin 2);
     Rect.height := mul (threshold d) (Fin 2) |}.

End Dog.

(** ** js/core/Game.js *)

Module Game.

Inductive effect : Type :=
| BumpSound. (* this.audioManager.playBumpSound() *)

(** What [inputManager.getMovementInput()] returns. *)
Record Movement : Type := mkMovement {
  mdx : num;
  mdy : num;
  mdirection : option string
}.

(** The fields of the controller the movement step reads and writes;
    [musicStarted] is the flag of the audio manager. *)
Record t : Type := mk {
  player : Player.t;
  musicStarted : bool;
  lastBumpTime : Z;
  bumpCooldown : Z
}.

Definition new (fresh : string) : t :=
  {| player := Player.new fresh;
     musicStarted := false;
     lastBumpTime := 0%Z;
     bumpCooldown := 150%Z |}.

Definition playBumpSound (g : t) (now : Z) : t * list effect :=
  let currentTime := now in
  if (currentTime - lastBumpTime g <? bumpCooldown g)%Z then (g, [])
  else
    ({| player := player g; musicStarted := musicStarted g;
        lastBumpTime := currentTime; bumpCooldown := bumpCooldown g |},
     [BumpSound]).

Definition updatePlayer (g : t) (movement : Movement) (now : Z)
    : t * list effect :=
  if strict_neq (mdx movement) (Fin 0) || strict_neq (mdy movement) (Fin 0) then
    let speed := Player.speed (player g) in
    let dx := mul (mdx movement) speed in
    let dy := mul (mdy movement) speed in
    let '(p1, moved) := Player.move (player g) dx dy CONFIG.COLLISION_BOXES in
    let p2 :=
      match mdirection movement with
      | Some d => Player.setDirection p1 d
      | None => p1
      end in
    let g1 :=
      {| player := p2; musicStarted := musicStarted g;
         lastBumpTime := lastBumpTime g; bumpCooldown := bumpCooldown g |} in
    if negb moved && musicStarted g1 then playBumpSound g1 now
    else (g1, [])
  else (g, []).

(** [updateDogs] on the dogs and the player of the game; the two flags
    say whether the audio manager has the background music and the
    birthday song.  An exception of a dog ends the loop. *)
Fixpoint updateDogs (dogs : list Dog.t) (player : GameObject.t)
    (happybdayAudio bgAudio : bool) (now : Z)
    : result (list Dog.t * list Dog.effect) :=
  match dogs with
  | [] => Ok ([], [])
  | dog :: rest =>
      let r :=
        if String.eqb (Dog.name dog) "Me"
        then Dog.update dog (Some player) happybdayAudio bgAudio now
        else Dog.update dog (Some player) false false now in
      match r with
      | Throw e => Throw e
      | Ok (dog', fx) =>
          match updateDogs rest player happybdayAudio bgAudio now with
          | Throw e => Throw e
          | Ok (rest', fxs) => Ok (dog' :: rest', fx ++ fxs)
          end
      end
  end.

(** [undefined] is [None]. *)
Definition getNearbyDog (dogs : list Dog.t) (player : GameObject.t)
    : option Dog.t :=
  find (fun dog => Dog.isPlayerInRange dog player) dogs.

End Game.

(** ** js/utils/ErrorHandler.js *)

Module ErrorHandler.

Record Error : Type := mkError { name : string; message : string }.

(** What goes to the console. *)
Inductive line : Type :=
| WarnError (context message : string)  (* console.warn of the error *)
| Trace                                 (* console.trace(error) *)
| CanvasHint
| AudioHint
| AssetHint (message : string)
| QuotaHint.

(** The static fields; [errorCounts] is a [Map]. *)
Record t : Type := mk {
  logLevel : string;
  errorCounts : list (string * nat);
  maxErrorsPerType : nat
}.

Definition initial : t :=
  {| logLevel := "info"; errorCounts := []; maxErrorsPerType := 10 |}.

Fixpoint get (m : list (string * nat)) (key : string) : option nat :=
  match m with
  | [] => None
  | (k, v) :: rest => if String.eqb k key then Some v else get rest key
  end.

Fixpoint set (m : list (string * nat)) (key : string) (v : nat)
    : list (string * nat) :=
  match m with
  | [] => [(key, v)]
  | (k, v0) :: rest =>
      if String.eqb k key then (k, v) :: rest else (k, v0) :: set rest key v
  end.

(** [message.includes(part)]. *)
Definition includes (message part : string) : bool :=
  match String.index 0 part message with
  | Some _ => true
  | None => false
  end.

(** Only the map of the handler is modelled, not the caches of the
    browser. *)
Definition clearCache (st : t) : t :=
  {| logLevel := logLevel st; errorCounts := [];
     maxErrorsPerType := maxErrorsPerType st |}.

Definition handleSpecificErrors (st : t) (error : Error) (context : string)
    : t * list line :=
  if String.eqb (name error) "TypeError" && includes (message error) "canvas"
  then (st, [CanvasHint])
  else if String.eqb (name error) "NotAllowedError" then (st, [AudioHint])
  else if includes (message error) "Failed to load"
  then (st, [AssetHint (message error)])
  else if String.eqb (name error) "QuotaExceededError"
  then (clearCache st, [QuotaHint])
  else (st, []).

Definition handleError (st : t) (error : Error) (context : string)
    : t * list line :=
  let errorKey := (context ++ ":" ++ message error)%string in
  let count :=
    match get (errorCounts st) errorKey with
    | Some c => c      (* a stored 0 is falsy and reads as 0 as well *)
    | None => O
    end in
  if (maxErrorsPerType st <=? count)%nat then (st, [])
  else
    let st1 :=
      {| logLevel := logLevel st;
         errorCounts := set (errorCounts st) errorKey (count + 1);
         maxErrorsPerType := maxErrorsPerType st |} in
    let r := handleSpecificErrors st1 error context in
    (fst r,
     [WarnError context (message error)] ++
     (if String.eqb (logLevel st) "debug" then [Trace] else []) ++
     snd r).

Definition setLogLevel (st : t) (level : string) : t :=
  {| logLevel := level; errorCounts := errorCounts st;
     maxErrorsPerType := maxErrorsPerType st |}.

Definition getErrorStats (st : t) : list (string * nat) := errorCounts st.

End ErrorHandler.

(** ** js/utils/EventEmitter.js *)

Module EventEmitter.

(** A listener is a function, known by its identity: a function of the
    caller, [Fn id], or the closure that [once] builds around the
    function [inner]; each call of [once] builds a new closure, [wid]
    tells them apart.  A function of the caller does not touch the
    emitter; whether it throws is given by [throws]. *)
Inductive callback : Type :=
| Fn (id : nat)
| OnceOf (wid : nat) (inner : nat).

Definition callback_eqb (a b : callback) : bool :=
  match a, b with
  | Fn i, Fn j => Nat.eqb i j
  | OnceOf w i, OnceOf w' i' => Nat.eqb w w' && Nat.eqb i i'
  | _, _ => false
  end.

(** [events] is a [Map]: the keys in insertion order. *)
Record t : Type := mk {
  events : list (string * list callback);
  maxListeners : option num
}.

Definition new : t := {| events := []; maxListeners := None |}.

Fixpoint get (m : list (string * list callback)) (event : string)
    : option (list callback) :=
  match m with
  | [] => None
  | (k, v) :: rest => if String.eqb k event then Some v else get rest event
  end.

Fixpoint set (m : list (string * list callback)) (event : string)
    (v : list callback) : list (string * list callback) :=
  match m with
  | [] => [(event, v)]
  | (k, v0) :: rest =>
      if String.eqb k event then (k, v) :: rest
      else (k, v0) :: set rest event v
  end.

Definition delete (m : list (string * list callback)) (event : string)
    : list (string * list callback) :=
  filter (fun kv => negb (String.eqb (fst kv) event)) m.

Definition withEvents (e : t) (m : list (string * list callback)) : t :=
  {| events := m; maxListeners := maxListeners e |}.

(** The array stored for the event; an event without entry has none,
    which reads like an empty one. *)
Definition listenersOf (e : t) (event : string) : list callback :=
  match get (events e) event with
  | Some l => l
  | None => []
  end.

(** A listener is a function by its type, so the exception of [on]
    for other values does not appear. *)
Definition on (e : t) (event : string) (cb : callback) : t :=
  withEvents e (set (events e) event (listenersOf e event ++ [cb])).

Fixpoint indexOf (cb : callback) (l : list callback) : option nat :=
  match l with
  | [] => None
  | c :: rest =>
      if callback_eqb c cb then Some O
      else match indexOf cb rest with
           | Some i => Some (S i)
           | None => None
           end
  end.

(** [listeners.splice(index, 1)]. *)
Definition removeAt (i : nat) (l : list callback) : list callback :=
  firstn i l ++ skipn (S i) l.

Definition off (e : t) (event : string) (cb : callback) : t * bool :=
  match get (events e) event with
  | None => (e, false)
  | Some l =>
      match indexOf cb l with
      | Some index =>
          let l' := removeAt index l in
          (match l' with
           | [] => withEvents e (delete (events e) event)
           | _ :: _ => withEvents e (set (events e) event l')
           end, true)
      | None => (e, false)
      end
  end.

(** [once] registers the closure [OnceOf wid inner]. *)
Definition once (e : t) (event : string) (wid inner : nat) : t :=
  on e event (OnceOf wid inner).

(** One listener is called; the identity of the function that ran is
    appended to [log].  The closure of [once] calls its function and
    then removes itself, unless the function threw. *)
Definition call (throws : nat -> bool) (e : t) (event : string)
    (cb : callback) (log : list nat) : t * list nat :=
  match cb with
  | Fn id => (e, log ++ [id])
  | OnceOf _ inner =>
      if throws inner then (e, log ++ [inner])
      else (fst (off e event cb), log ++ [inner])
  end.

(** [listeners.forEach]: the indices [k], [k+1], ... below the length
    the array had at the start, [fuel] of them left; an index the array
    no longer has is passed over. *)
Fixpoint forEachFrom (throws : nat -> bool) (fuel k : nat) (e : t)
    (event : string) (log : list nat) : t * list nat :=
  match fuel with
  | O => (e, log)
  | S fuel' =>
      match nth_error (listenersOf e event) k with
      | None => forEachFrom throws fuel' (S k) e event log
      | Some cb =>
          let r := call throws e event cb log in
          forEachFrom throws fuel' (S k) (fst r) event (snd r)
      end
  end.

(** [emit] returns the emitter afterwards, its answer and the functions
    that ran, in order. *)
Definition emit (throws : nat -> bool) (e : t) (event : string)
    : t * bool * list nat :=
  match get (events e) event with
  | None => (e, false, [])
  | Some listeners =>
      let r := forEachFrom throws (List.length listeners) 0 e event [] in
      (fst r, true, snd r)
  end.

(** [if (event)]: the empty name is falsy. *)
Definition removeAllListeners (e : t) (event : option string) : t :=
  match event with
  | Some ev =>
      if negb (String.eqb ev "") then withEvents e (delete (events e) ev)
      else withEvents e []
  | None => withEvents e []
  end.

Definition listeners (e : t) (event : string) : list callback :=
  listenersOf e event.

Definition listenerCount (e : t) (event : string) : nat :=
  List.length (listenersOf e event).

Definition eventNames (e : t) : list string := map fst (events e).

End EventEmitter.

(** ** js/systems/InputManager.js *)

Module InputManager.

(** What the manager emits to its listeners. *)
Inductive event : Type :=
| keydown (key : string)
| keyup (key : string)
| interact
| toggleDebug
| toggleCollisions
| closeModals
| audioRequested.

(** [keys] is a [Set]: the keys held down, in the order they went down,
    none twice. *)
Record t : Type := mk { keys : list string }.

Definition new : t := {| keys := [] |}.

Definition isKeyPressed (im : t) (key : string) : bool :=
  existsb (String.eqb key) (keys im).

Definition handleSpecificKeys (key : string) : list event :=
  if String.eqb key "e" || String.eqb key "E" then [interact]
  else if String.eqb key "F3" then [toggleDebug]
  else if String.eqb key ";" then [toggleCollisions]
  else if String.eqb key "Escape" then [closeModals]
  else [].

Definition handleKeyDown (im : t) (key : string) : t * list event :=
  if negb (isKeyPressed im key) then
    ({| keys := keys im ++ [key] |},
     [keydown key] ++ handleSpecificKeys key ++ [audioRequested])
  else (im, []).

Definition handleKeyUp (im : t) (key : string) : t * list event :=
  ({| keys := filter (fun k => negb (String.eqb key k)) (keys im) |},
   [keyup key]).

Definition isGameKey (key : string) : bool :=
  let gameKeys :=
    ["ArrowUp"; "ArrowDown"; "ArrowLeft"; "ArrowRight";
     "w"; "a"; "s"; "d"; "e"; "E"; "F3"; ";"; "Escape"]%string in
  existsb (String.eqb key) gameKeys.

Definition getMovementInput (im : t) : Game.Movement :=
  let m0 := Game.mkMovement (Fin 0) (Fin 0) None in
  let m1 :=
    if isKeyPressed im "ArrowLeft" || isKeyPressed im "a"
    then Game.mkMovement (Fin (-1)) (Game.mdy m0) (Some "left"%string)
    else m0 in
  let m2 :=
    if isKeyPressed im "ArrowRight" || isKeyPressed im "d"
    then Game.mkMovement (Fin 1) (Game.mdy m1) (Some "right"%string)
    else m1 in
  let m3 :=
    if isKeyPressed im "ArrowUp" || isKeyPressed im "w"
    then Game.mkMovement (Game.mdx m2) (Fin (-1)) (Some "up"%string)
    else m2 in
  if isKeyPressed im "ArrowDown" || isKeyPressed im "s"
  then Game.mkMovement (Game.mdx m3) (Fin 1) (Some "down"%string)
  else m3.

Definition clearKeys (im : t) : t := {| keys := [] |}.

End InputManager.

(** ** js/core/Game.js: the frame loop *)

Module GameLoop.

(** What the loop does to the rest of the game. *)
Inductive effect : Type :=
| BgMusicVolume (v : Q)   (* this.audioManager.setVolume('bgMusic', v) *)
| Frame (deltaTime : Q).  (* this.update(deltaTime); this.render() *)

(** The fields of the controller that [start], [pause], [resume] and
    [gameLoop] read and write, and [scheduled], the number of callbacks
    handed to [requestAnimationFrame] that the browser has not run
    yet. *)
Record t : Type := mk {
  isRunning : bool;
  lastFrameTime : Q;
  scheduled : nat
}.

Definition new : t :=
  {| isRunning := false; lastFrameTime := 0; scheduled := 0 |}.

(** [now] is [performance.now()]. *)
Definition start (g : t) (now : Q) : t :=
  if isRunning g then g
  else {| isRunning := true; lastFrameTime := now;
          scheduled := S (scheduled g) |}.

Definition pause (g : t) : t * list effect :=
  ({| isRunning := false; lastFrameTime := lastFrameTime g;
      scheduled := scheduled g |}, [BgMusicVolume 0.3]).

Definition resume (g : t) : t * list effect :=
  if negb (isRunning g) then
    ({| isRunning := true; lastFrameTime := lastFrameTime g;
        scheduled := S (scheduled g) |}, [BgMusicVolume 1.0])
  else (g, []).

(** The browser runs one scheduled callback, [gameLoop(currentTime)];
    with nothing scheduled it runs nothing. *)
Definition gameLoop (g : t) (currentTime : Q) : t * list effect :=
  match scheduled g with
  | O => (g, [])
  | S n =>
      if negb (isRunning g) then
        ({| isRunning := isRunning g; lastFrameTime := lastFrameTime g;
            scheduled := n |}, [])
      else
        let deltaTime := currentTime - lastFrameTime g in
        ({| isRunning := isRunning g; lastFrameTime := currentTime;
            scheduled := S n |}, [Frame deltaTime])
  end.

Definition destroy (g : t) : t :=
  {| isRunning := false; lastFrameTime := lastFrameTime g;
     scheduled := scheduled g |}.

End GameLoop.

(** ** js/entities/Mailbox.js *)

Module Mailbox.

(** [wasPlayerNearby], which only [update] and [reset] use, is left
    out. *)
Record t : Type := mk {
  obj : GameObject.t;
  interactionDistance : num;
  isActive : bool;
  lastInteractionTime : Z
}.

Definition new (fresh : string) : t :=
  {| obj := GameObject.new CONFIG.MAILBOX.X CONFIG.MAILBOX.Y
              (Fin 50) (Fin 50) fresh;
     interactionDistance := CONFIG.MAILBOX.INTERACTION_DISTANCE;
     isActive := false;
     lastInteractionTime := 0%Z |}.

Definition isPlayerNearby (mb : t) (player : GameObject.t) : bool :=
  root_lt (GameObject.distanceTo (obj mb) player) (interactionDistance mb).

Definition getInteractionBounds (mb : t) : Rect.t :=
  let center := GameObject.getCenter (obj mb) in
  {| Rect.x := sub (Point.x center) (interactionDistance mb);
     Rect.y := sub (Point.y center) (interactionDistance mb);
     Rect.width := mul (interactionDistance mb) (Fin 2);
     Rect.height := mul (interactionDistance mb) (Fin 2) |}.

(** [interact] returns the mailbox after the call and its answer; the
    timer it starts is [timerFired]. *)
Definition interact (mb : t) (player : GameObject.t) (now : Z) : t * bool :=
  let currentTime := now in
  if negb (isPlayerNearby mb player) then (mb, false)
  else if (currentTime - lastInteractionTime mb <? 500)%Z then (mb, false)
  else
    ({| obj := obj mb; interactionDistance := interactionDistance mb;
        isActive := true; lastInteractionTime := currentTime |}, true).

(** The callback of [setTimeout(..., 200)]. *)
Definition timerFired (mb : t) : t :=
  {| obj := obj mb; interactionDistance := interactionDistance mb;
     isActive := false; lastInteractionTime := lastInteractionTime mb |}.

End Mailbox.

(** ** Specification predicates *)

(** The rectangle lies inside the world [0,0]-[1094,1112]. *)
Definition withinWorld (r : Rect.t) : bool :=
  ge (Rect.x r) (Fin 0) && ge (Rect.y r) (Fin 0) &&
  le (add (Rect.x r) (Rect.width r)) CONFIG.CANVAS.WIDTH &&
  le (add (Rect.y r) (Rect.height r)) CONFIG.CANVAS.HEIGHT.

(** The rectangle overlaps none of the obstacles. *)
Definition clearOf (r : Rect.t) (obstacles : list Rect.t) : Prop :=
  Forall (fun o => ValidationUtils.isColliding r o = false) obstacles.

Definition playerBounds (p : Player.t) : Rect.t :=
  GameObject.getBounds (Player.obj p).

(** Scenario A: the player of the game, placed at (500, 40). *)
Definition scenarioA_player : Player.t :=
  let p := Player.new "obj_player" in
  {| Player.obj := GameObject.setPosition (Player.obj p) (Fin 500) (Fin 40);
     Player.speed := Player.speed p;
     Player.direction := Player.direction p;
     Player.lastPosition := Player.lastPosition p |}.

(** Scenario C: a 16x32 player at (100, 100) with one obstacle two units
    to its right. *)
Definition scenarioC_player : Player.t :=
  let p := Player.new "obj_player" in
  {| Player.obj := GameObject.setPosition (Player.obj p) (Fin 100) (Fin 100);
     Player.speed := Player.speed p;
     Player.direction := Player.direction p;
     Player.lastPosition := Player.lastPosition p |}.

Definition scenarioC_obstacles : list Rect.t := [CONFIG.box 118 100 10 40].

(** The arguments of one [update] call of a dog: one frame. *)
Record Tick : Type := mkTick {
  tk_player : option GameObject.t;
  tk_special : bool;
  tk_bg : bool;
  tk_now : Z
}.

(** [update] as a state transformer: a call that throws has written
    nothing. *)
Definition updateStep (d : Dog.t) (tk : Tick) : Dog.t * list Dog.effect :=
  match Dog.update d (tk_player tk) (tk_special tk) (tk_bg tk) (tk_now tk) with
  | Ok r => r
  | Throw _ => (d, [])
  end.

(** Consecutive frames: the dog after each call and what the call did. *)
Fixpoint runUpdates (d : Dog.t) (ticks : list Tick)
    : list (Dog.t * list Dog.effect) :=
  match ticks with
  | [] => []
  | tk :: rest =>
      let r := updateStep d tk in
      r :: runUpdates (fst r) rest
  end.

(** The player of the frame is present and strictly inside the
    interaction radius of the dog. *)
Definition inRadius (d : Dog.t) (tk : Tick) : Prop :=
  exists p, tk_player tk = Some p /\ Dog.isPlayerInRange d p = true.

(** What entering does to the audio elements. *)
Definition enterEffects (d : Dog.t) (tk : Tick) : list Dog.effect :=
  if Dog.isMe d then
    (if tk_bg tk then [Dog.BgVolume 0] else []) ++
    (if tk_special tk then [Dog.SpecialRestart] else [])
  else if Dog.audio d then [Dog.Bark (Dog.name d)] else [].

(** Number of frames on which the state went from [sit] to [jump],
    given the state before the first frame and the states after each. *)
Fixpoint enterCount (before : Dog.State) (after : list Dog.State) : nat :=
  match after with
  | [] => 0
  | s :: rest =>
      (if Dog.State_eqb before Dog.sit && Dog.State_eqb s Dog.jump
       then 1 else 0) + enterCount s rest
  end.

(** The operations of a dog that touch its state machine. *)
Inductive DogOp : Type :=
| OpUpdate (tk : Tick)
| OpActivate (specialAudio bgAudio : bool) (now : Z)
| OpDeactivate (specialAudio bgAudio : bool) (now : Z)
| OpSetState (newState : Dog.State) (now : Z)
| OpReset (now : Z).

Definition applyOp (d : Dog.t) (op : DogOp) : Dog.t :=
  match op with
  | OpUpdate tk => fst (updateStep d tk)
  | OpActivate sa bg now => fst (Dog.activate d sa bg now)
  | OpDeactivate sa bg now => fst (Dog.deactivate d sa bg now)
  | OpSetState s now => Dog.setState d s now
  | OpReset now => Dog.reset d now
  end.

Definition isSetState (op : DogOp) : bool :=
  match op with
  | OpSetState _ _ => true
  | _ => false
  end.

(** The latch and the state agree. *)
Definition latchAgrees (d : Dog.t) : Prop :=
  Dog.barked d = true <-> Dog.state d = Dog.jump.

(** Roti, as the game configures and creates it. *)
Definition ROTI : Dog.Config :=
  {| Dog.cfg_x := Fin 300; Dog.cfg_y := Fin 400;
     Dog.cfg_width := Fin 450; Dog.cfg_height := Fin 800;
     Dog.cfg_scale := Fin 0.12 |}.

Definition roti : Dog.t := Dog.setAudio (Dog.new "Roti" ROTI "obj_roti") true.

(** Roti after the player came close at time 1000. *)
Definition roti_jumping : Dog.t := fst (Dog.activate roti false false 1000).

(** A player whose coordinates are not numbers. *)
Definition nanPlayer : GameObject.t :=
  {| GameObject.x := NaN; GameObject.y := NaN;
     GameObject.width := Fin 16; GameObject.height := Fin 32;
     GameObject.id := "obj_player" |}.

(** A player standing next to Roti, and three frames of it. *)
Definition nearPlayer : GameObject.t :=
  {| GameObject.x := Fin 300; GameObject.y := Fin 400;
     GameObject.width := Fin 16; GameObject.height := Fin 32;
     GameObject.id := "obj_player" |}.

Definition nearTicks : list Tick :=
  [ mkTick (Some nearPlayer) false false 1000;
    mkTick (Some nearPlayer) false false 1016;
    mkTick (Some nearPlayer) false false 1033 ].

(** Whether a call played the bump sound. *)
Definition fired (fx : list Game.effect) : bool :=
  match fx with
  | [] => false
  | _ :: _ => true
  end.

(** A blocked-move attempt: the movement input asks for a displacement
    and [Player.move] refuses it where the player stands. *)
Definition blockedAttempt (p : Player.t) (m : Game.Movement) : bool :=
  (strict_neq (Game.mdx m) (Fin 0) || strict_neq (Game.mdy m) (Fin 0)) &&
  negb (snd (Player.move p
               (mul (Game.mdx m) (Player.speed p))
               (mul (Game.mdy m) (Player.speed p))
               CONFIG.COLLISION_BOXES)).

(** What one frame of the movement step did: its time, whether its
    movement was a blocked-move attempt, whether the bump sound played. *)
Record Attempt : Type := mkAttempt {
  a_time : Z;
  a_blocked : bool;
  a_fired : bool
}.

(** Consecutive frames of [updatePlayer], each with its movement input
    and its time. *)
Fixpoint runAttempts (g : Game.t) (frames : list (Game.Movement * Z))
    : list Attempt :=
  match frames with
  | [] => []
  | f :: rest =>
      let r := Game.updatePlayer g (fst f) (snd f) in
      mkAttempt (snd f) (blockedAttempt (Game.player g) (fst f))
                (fired (snd r))
        :: runAttempts (fst r) rest
  end.

(** The time of the last frame of the trace that played the sound;
    [init], the [lastBumpTime] the game started from, when none did. *)
Definition lastBump (init : Z) (trace : list Attempt) : Z :=
  fold_left (fun (acc : Z) (a : Attempt) => if a_fired a then a_time a else acc)
    trace init.

(** The number of bump sounds of a trace. *)
Definition bumpCount (trace : list Attempt) : nat :=
  List.length (filter a_fired trace).

(** The movement input while the up key is held. *)
Definition pushUp : Game.Movement :=
  InputManager.getMovementInput (InputManager.mk ["ArrowUp"%string]).

(** A new game after fifteen frames with the up key held: the player has
    walked from (465, 210) up to the box {0, 170, 1200, 10}. *)
Definition gameAtWall : Game.t :=
  fold_left (fun (g : Game.t) (now : Z) => fst (Game.updatePlayer g pushUp now))
    (repeat 0%Z 15) (Game.new "obj_player").

(** The game once the audio manager has started the music. *)
Definition musicOn (g : Game.t) : Game.t :=
  {| Game.player := Game.player g; Game.musicStarted := true;
     Game.lastBumpTime := Game.lastBumpTime g;
     Game.bumpCooldown := Game.bumpCooldown g |}.

(** The operations on a player that the game and its users call; the
    displacement of a move attempt is a pair of finite numbers. *)
Inductive PlayerOp : Type :=
| PMove (dx dy : Q)
| PSetDirection (d : string)
| PSetSpeed (s : num)
| PReset.

Definition applyPlayerOp (p : Player.t) (op : PlayerOp) : Player.t :=
  match op with
  | PMove dx dy => fst (Player.move p (Fin dx) (Fin dy) CONFIG.COLLISION_BOXES)
  | PSetDirection d => Player.setDirection p d
  | PSetSpeed s => Player.setSpeed p s
  | PReset => Player.reset p
  end.

Definition validDirection (d : string) : Prop :=
  In d ["up"; "down"; "left"; "right"]%string.

Definition unitVectors : list Point.t :=
  [ Point.mk (Fin 0) (Fin (-1)); Point.mk (Fin 0) (Fin 1);
    Point.mk (Fin (-1)) (Fin 0); Point.mk (Fin 1) (Fin 0) ].

(** What every player of the game satisfies: the configured size, a
    rectangle inside the world that overlaps no configured collision
    box, and one of the four directions. *)
Definition playerOk (p : Player.t) : Prop :=
  Player.width p = CONFIG.PLAYER.WIDTH /\
  Player.height p = CONFIG.PLAYER.HEIGHT /\
  withinWorld (playerBounds p) = true /\
  clearOf (playerBounds p) CONFIG.COLLISION_BOXES /\
  validDirection (Player.direction p).

(** Whether the player of the frame is present and in range. *)
Definition tickInRange (d : Dog.t) (tk : Tick) : bool :=
  match tk_player tk with
  | Some p => Dog.isPlayerInRange d p
  | None => false
  end.

(** What leaving does to the audio elements. *)
Definition exitEffects (d : Dog.t) (tk : Tick) : list Dog.effect :=
  if Dog.isMe d then
    (if tk_special tk then [Dog.SpecialStop] else []) ++
    (if tk_bg tk then [Dog.BgVolume 1] else [])
  else [].

(** One frame of the movement step: the keys held down and the time. *)
Definition frameStep (g : Game.t) (f : InputManager.t * Z) : Game.t :=
  fst (Game.updatePlayer g (InputManager.getMovementInput (fst f)) (snd f)).

(** What can happen to the frame loop: calls of the controller and the
    browser running one scheduled callback. *)
Inductive LoopOp : Type :=
| LStart (now : Q)
| LPause
| LResume
| LFrame (currentTime : Q)
| LDestroy.

Definition applyLoopOp (g : GameLoop.t) (op : LoopOp) : GameLoop.t :=
  match op with
  | LStart now => GameLoop.start g now
  | LPause => fst (GameLoop.pause g)
  | LResume => fst (GameLoop.resume g)
  | LFrame currentTime => fst (GameLoop.gameLoop g currentTime)
  | LDestroy => GameLoop.destroy g
  end.

(** The frames that the browser runs at the given times, and what they
    do. *)
Fixpoint runFrames (g : GameLoop.t) (times : list Q)
    : GameLoop.t * list GameLoop.effect :=
  match times with
  | [] => (g, [])
  | currentTime :: rest =>
      let r := GameLoop.gameLoop g currentTime in
      let r' := runFrames (fst r) rest in
      (fst r', snd r ++ snd r')
  end.

(** The function a listener runs. *)
Definition calledId (cb : EventEmitter.callback) : nat :=
  match cb with
  | EventEmitter.Fn id => id
  | EventEmitter.OnceOf _ inner => inner
  end.

(** A listener that leaves the emitter alone when it is called: a
    function of the caller, or a closure of [once] whose function
    throws. *)
Definition inert (throws : nat -> bool) (cb : EventEmitter.callback) : Prop :=
  match cb with
  | EventEmitter.Fn _ => True
  | EventEmitter.OnceOf _ inner => throws inner = true
  end.

(** The calls an emitter receives. *)
Inductive EmitterOp : Type :=
| EOn (event : string) (cb : EventEmitter.callback)
| EOff (event : string) (cb : EventEmitter.callback)
| EEmit (event : string)
| ERemoveAll (event : option string).

Definition applyEmitterOp (throws : nat -> bool) (e : EventEmitter.t)
    (op : EmitterOp) : EventEmitter.t :=
  match op with
  | EOn event cb => EventEmitter.on e event cb
  | EOff event cb => fst (EventEmitter.off e event cb)
  | EEmit event => fst (fst (EventEmitter.emit throws e event))
  | ERemoveAll event => EventEmitter.removeAllListeners e event
  end.

(** No event is kept with an empty array of listeners. *)
Definition noEmptyEvent (e : EventEmitter.t) : Prop :=
  Forall (fun kv : string * list EventEmitter.callback => snd kv <> [])
         (EventEmitter.events e).

(** The same error reported [n] times in a row. *)
Fixpoint reportTimes (n : nat) (st : ErrorHandler.t) (error : ErrorHandler.Error)
    (context : string) : ErrorHandler.t * list ErrorHandler.line :=
  match n with
  | O => (st, [])
  | S n' =>
      let r := ErrorHandler.handleError st error context in
      let r' := reportTimes n' (fst r) error context in
      (fst r', snd r ++ snd r')
  end.

(** The number of lines among the output that report an error: the
    [console.warn] of [handleError] itself, not the hints. *)
Fixpoint warnings (out : list ErrorHandler.line) : nat :=
  match out with
  | [] => O
  | ErrorHandler.WarnError _ _ :: rest => S (warnings rest)
  | _ :: rest => warnings rest
  end.

(** The error reaches the branch of [handleSpecificErrors] that clears
    the counts. *)
Definition clearsCounts (error : ErrorHandler.Error) : bool :=
  negb (String.eqb (ErrorHandler.name error) "TypeError" &&
        ErrorHandler.includes (ErrorHandler.message error) "canvas") &&
  negb (String.eqb (ErrorHandler.name error) "NotAllowedError") &&
  negb (ErrorHandler.includes (ErrorHandler.message error) "Failed to load") &&
  String.eqb (ErrorHandler.name error) "QuotaExceededError".

(** The count the handler holds for an error, 0 when it holds none. *)
Definition countOf (st : ErrorHandler.t) (error : ErrorHandler.Error)
    (context : string) : nat :=
  match ErrorHandler.get (ErrorHandler.errorCounts st)
          (context ++ ":" ++ ErrorHandler.message error)%string with
  | Some c => c
  | None => O
  end.

(** ** Numbers: comparison lemmas *)

Lemma Qlt_bool_iff (a b : Q) : Qlt_bool a b = true <-> a < b.
Proof.
  unfold Qlt_bool. rewrite negb_true_iff.
  split; intro H.
  - apply Qnot_le_lt. intro Hle. apply Qle_bool_iff in Hle. congruence.
  - destruct (Qle_bool b a) eqn:E; [|reflexivity].
    apply Qle_bool_iff in E. lra.
Qed.

Lemma Qlt_bool_false_iff (a b : Q) : Qlt_bool a b = false <-> b <= a.
Proof.
  unfold Qlt_bool. rewrite negb_false_iff. apply Qle_bool_iff.
Qed.

Lemma Qle_bool_false_iff (a b : Q) : Qle_bool a b = false <-> b < a.
Proof.
  rewrite <- Qlt_bool_iff. unfold Qlt_bool.
  destruct (Qle_bool a b); simpl; intuition congruence.
Qed.

(** Turn every boolean comparison in the context and the goal into the
    order statement it decides. *)
Ltac qprop :=
  repeat match goal with
  | H : _ && _ = true |- _ => apply andb_true_iff in H; destruct H
  | H : _ || _ = false |- _ => apply orb_false_iff in H; destruct H
  | H : negb _ = true |- _ => apply negb_true_iff in H
  | H : negb _ = false |- _ => apply negb_false_iff in H
  | H : Qlt_bool _ _ = true |- _ => apply Qlt_bool_iff in H
  | H : Qlt_bool _ _ = false |- _ => apply Qlt_bool_false_iff in H
  | H : Qle_bool _ _ = true |- _ => apply Qle_bool_iff in H
  | H : Qle_bool _ _ = false |- _ => apply Qle_bool_false_iff in H
  | |- _ && _ = true => apply andb_true_iff; split
  | |- Qlt_bool _ _ = true => apply Qlt_bool_iff
  | |- Qlt_bool _ _ = false => apply Qlt_bool_false_iff
  | |- Qle_bool _ _ = true => apply Qle_bool_iff
  | |- Qle_bool _ _ = false => apply Qle_bool_false_iff
  end.

(** The comparison of a symbolic root with a number is the comparison
    of the real square root with it. *)
Lemma root_lt_real (q t : Q) :
  0 <= q ->
  root_lt (JS.sqrt (Fin q)) (Fin t) = true <->
  (R_sqrt.sqrt (Q2R q) < Q2R t)%R.
Proof.
  intro Hq. unfold JS.sqrt.
  replace (Qlt_bool q 0) with false
    by (symmetry; apply Qlt_bool_false_iff; exact Hq).
  unfold root_lt. rewrite andb_true_iff, !Qlt_bool_iff.
  apply Qle_Rle in Hq. rewrite RMicromega.Q2R_0 in Hq.
  split.
  - intros [Ht Hlt]. apply Qlt_Rlt in Ht, Hlt.
    rewrite RMicromega.Q2R_0 in Ht. rewrite Q2R_mult in Hlt.
    rewrite <- (sqrt_square (Q2R t)) by lra.
    apply sqrt_lt_1_alt. lra.
  - intro H.
    pose proof (sqrt_pos (Q2R q)) as Hpos.
    assert (Ht : (0 < Q2R t)%R) by lra.
    split.
    + apply Rlt_Qlt. rewrite RMicromega.Q2R_0. exact Ht.
    + apply Rlt_Qlt. rewrite Q2R_mult.
      rewrite <- (sqrt_sqrt (Q2R q)) by exact Hq.
      apply Rmult_le_0_lt_compat; lra.
Qed.

(** Inside its range [clamp] returns its argument itself. *)
Lemma clamp_inside (v lo hi : Q) :
  lo <= v -> v <= hi ->
  ValidationUtils.clamp (Fin v) (Fin lo) (Fin hi) = Fin v.
Proof.
  intros Hlo Hhi. unfold ValidationUtils.clamp. simpl.
  destruct (Qlt_bool v lo) eqn:E1; qprop; [lra|].
  destruct (Qlt_bool hi v) eqn:E2; qprop; [lra|reflexivity].
Qed.

(** On finite arguments with [lo <= hi] the result of [clamp] is finite
    and lies between the two limits. *)
Lemma clamp_range (v lo hi : Q) :
  lo <= hi ->
  exists c, ValidationUtils.clamp (Fin v) (Fin lo) (Fin hi) = Fin c /\
            lo <= c /\ c <= hi.
Proof.
  intro Hle. unfold ValidationUtils.clamp. simpl.
  destruct (Qlt_bool v lo) eqn:E1; qprop.
  - destruct (Qlt_bool hi lo) eqn:E2; qprop; [lra|].
    exists lo. split; [reflexivity|lra].
  - destruct (Qlt_bool hi v) eqn:E2; qprop.
    + exists hi. split; [reflexivity|lra].
    + exists v. split; [reflexivity|lra].
Qed.

(** A rectangle inside the world has four finite fields. *)
Lemma withinWorld_finite (r : Rect.t) :
  withinWorld r = true ->
  exists x y w h,
    r = Rect.mk (Fin x) (Fin y) (Fin w) (Fin h) /\
    0 <= x /\ 0 <= y /\ x + w <= 1094 /\ y + h <= 1112.
Proof.
  destruct r as [[|x] [|y] [|w] [|h]]; unfold withinWorld; simpl;
    intro H; try discriminate;
    try (rewrite ?andb_false_r in H; discriminate).
  qprop. exists x, y, w, h. repeat split; assumption.
Qed.

(** ** The entity base model *)

(** C7, as the code has it. Clamping: for an entity whose width is in
    (0, 1094] and whose height is in (0, 1112], [setPosition x y] on any
    finite [x] and [y], out of range or not, leaves the rectangle of the
    entity inside the world [0,0]-[1094,1112]; width, height and id are
    unchanged. *)

Theorem setPosition_within_world (o : GameObject.t) (w h x0 y0 : Q) :
  GameObject.width o = Fin w ->
  GameObject.height o = Fin h ->
  0 < w -> w <= 1094 ->
  0 < h -> h <= 1112 ->
  let o' := GameObject.setPosition o (Fin x0) (Fin y0) in
  withinWorld (GameObject.getBounds o') = true /\
  GameObject.width o' = GameObject.width o /\
  GameObject.height o' = GameObject.height o /\
  GameObject.id o' = GameObject.id o.
Proof.
  intros Hw Hh Hw0 Hw1 Hh0 Hh1 o'.
  split; [|repeat split].
  subst o'. unfold withinWorld, GameObject.getBounds, GameObject.setPosition.
  cbn [Rect.x Rect.y Rect.width Rect.height
       GameObject.x GameObject.y GameObject.width GameObject.height].
  rewrite Hw, Hh.
  unfold CONFIG.CANVAS.WIDTH, CONFIG.CANVAS.HEIGHT.
  cbn [sub].
  destruct (clamp_range x0 0 (1094 - w)) as (cx & -> & Hx0 & Hx1); [lra|].
  destruct (clamp_range y0 0 (1112 - h)) as (cy & -> & Hy0 & Hy1); [lra|].
  unfold ge, le, add. qprop; lra.
Qed.

Lemma setPosition_within_world_witness :
  let o := GameObject.mk (Fin 465) (Fin 210) (Fin 16) (Fin 32) "obj_a" in
  let o' := GameObject.setPosition o (Fin (-7)) (Fin 2000) in
  withinWorld (GameObject.getBounds o') = true /\
  GameObject.width o' = GameObject.width o /\
  GameObject.height o' = GameObject.height o /\
  GameObject.id o' = GameObject.id o.
Proof.
  intros o o'.
  apply (setPosition_within_world o 16 32 (-7) 2000);
    try reflexivity; lra.
Defined.

(** An input that is not a number is not clamped: [clamp] hands NaN on,
    [setPosition] stores it, and the rectangle is not inside the world. *)
Lemma setPosition_NaN_outside_world :
  let o := GameObject.mk (Fin 465) (Fin 210) (Fin 16) (Fin 32) "obj_a" in
  let o' := GameObject.setPosition o NaN (Fin 5) in
  (0 < 16 /\ 16 <= 1094 /\ 0 < 32 /\ 32 <= 1112) /\
  GameObject.x o' = NaN /\
  ~ withinWorld (GameObject.getBounds o') = true.
Proof.
  split; [repeat split; lra|].
  split; [reflexivity|].
  vm_compute. discriminate.
Qed.

(** ** The movement controller *)

Lemma canMoveTo_true (p : Player.t) (x0 y0 : num) (boxes : list Rect.t) :
  Player.canMoveTo p x0 y0 boxes = true ->
  lt x0 (Fin 0) = false /\ lt y0 (Fin 0) = false /\
  gt (add x0 (Player.width p)) CONFIG.CANVAS.WIDTH = false /\
  gt (add y0 (Player.height p)) CONFIG.CANVAS.HEIGHT = false /\
  existsb (fun box =>
    ValidationUtils.isColliding
      (Rect.mk x0 y0 (Player.width p) (Player.height p)) box) boxes = false.
Proof.
  unfold Player.canMoveTo.
  destruct (lt x0 (Fin 0)); [discriminate|].
  destruct (lt y0 (Fin 0)); [discriminate|].
  destruct (gt (add x0 (Player.width p)) CONFIG.CANVAS.WIDTH); [discriminate|].
  destruct (gt (add y0 (Player.height p)) CONFIG.CANVAS.HEIGHT); [discriminate|].
  simpl. intro H. apply negb_true_iff in H. repeat split; assumption.
Qed.

Lemma clearOf_existsb (r : Rect.t) (obstacles : list Rect.t) :
  existsb (fun box => ValidationUtils.isColliding r box) obstacles = false <->
  clearOf r obstacles.
Proof.
  unfold clearOf. induction obstacles as [|o os IH]; simpl.
  - split; [constructor|reflexivity].
  - rewrite orb_false_iff, IH. split.
    + intros [H1 H2]. constructor; assumption.
    + intro H. inversion H; subst. split; assumption.
Qed.

(** The two outcomes of [move] from a finite rectangle, for every
    displacement, NaN included: a committed move stores the target as
    [canMoveTo] tested it, a refused one leaves the object. *)
Lemma move_outcomes (p : Player.t) (px py w h : Q) (dx dy : num)
    (obstacles : list Rect.t) :
  playerBounds p = Rect.mk (Fin px) (Fin py) (Fin w) (Fin h) ->
  let r := Player.move p dx dy obstacles in
  Player.lastPosition (fst r) = Point.mk (Fin px) (Fin py) /\
  ((snd r = true /\
    playerBounds (fst r) =
      Rect.mk (add (Fin px) dx) (add (Fin py) dy) (Fin w) (Fin h) /\
    Player.canMoveTo p (add (Fin px) dx) (add (Fin py) dy) obstacles = true) \/
   (snd r = false /\ Player.obj (fst r) = Player.obj p)).
Proof.
  intros Hb r. subst r.
  destruct p as [[qx qy qw qh pid] sp dir lastp].
  unfold playerBounds, GameObject.getBounds in Hb. simpl in Hb.
  injection Hb as -> -> -> ->.
  unfold Player.move.
  cbn [Player.obj Player.x Player.y Player.width Player.height
       GameObject.x GameObject.y GameObject.width GameObject.height
       GameObject.id Player.speed Player.direction Player.lastPosition].
  match goal with |- context [Player.canMoveTo ?q ?a ?b ?c] =>
    destruct (Player.canMoveTo q a b c) eqn:E end.
  - pose proof (canMoveTo_true _ _ _ _ E) as (E1 & E2 & E3 & E4 & _).
    unfold Player.width, Player.height in E3, E4.
    cbn [Player.obj GameObject.width GameObject.height] in E3, E4.
    assert (Hx : ValidationUtils.clamp (add (Fin px) dx) (Fin 0)
                   (sub CONFIG.CANVAS.WIDTH (Fin w)) = add (Fin px) dx).
    { destruct dx as [|dx]; [reflexivity|].
      unfold gt, lt, add, CONFIG.CANVAS.WIDTH in E1, E3.
      unfold CONFIG.CANVAS.WIDTH. cbn [add sub].
      qprop. apply clamp_inside; lra. }
    assert (Hy : ValidationUtils.clamp (add (Fin py) dy) (Fin 0)
                   (sub CONFIG.CANVAS.HEIGHT (Fin h)) = add (Fin py) dy).
    { destruct dy as [|dy]; [reflexivity|].
      unfold gt, lt, add, CONFIG.CANVAS.HEIGHT in E2, E4.
      unfold CONFIG.CANVAS.HEIGHT. cbn [add sub].
      qprop. apply clamp_inside; lra. }
    rewrite Hx, Hy. cbn [fst snd Player.lastPosition].
    split; [reflexivity|]. left.
    split; [reflexivity|]. split; [reflexivity|]. exact E.
  - cbn [fst snd Player.lastPosition Player.obj].
    split; [reflexivity|]. right. split; reflexivity.
Qed.

(** C1, as the code has it. No tunneling, for the player of the game
    (16 by 32, the size its constructor sets): if its bounds lie inside
    the world and overlap no obstacle, then after [move dx dy obstacles],
    for every obstacle list and every displacement, NaN included, the
    bounds still overlap no obstacle; for every displacement whose two
    components are finite numbers they also still lie inside the
    world.  With this size the sums [x + 16] and [y + 32] that
    [canMoveTo] tests are exact in double precision at the right and
    lower edges of the world, so the code, like the model, stores an
    accepted target as it was tested. *)
Theorem move_no_tunneling (p : Player.t) (dx dy : num) (obstacles : list Rect.t) :
  Player.width p = CONFIG.PLAYER.WIDTH ->
  Player.height p = CONFIG.PLAYER.HEIGHT ->
  withinWorld (playerBounds p) = true ->
  clearOf (playerBounds p) obstacles ->
  let p' := fst (Player.move p dx dy obstacles) in
  clearOf (playerBounds p') obstacles /\
  (dx <> NaN -> dy <> NaN -> withinWorld (playerBounds p') = true).
Proof.
  intros _ _ Hin Hclear p'. subst p'.
  destruct (withinWorld_finite _ Hin) as (px & py & w & h & Hb & Hx & Hy & Hw & Hh).
  destruct (move_outcomes p px py w h dx dy obstacles Hb)
    as (_ & [(_ & Hb' & Hc) | (_ & Ho)]).
  - rewrite Hb'. apply canMoveTo_true in Hc.
    destruct Hc as (E1 & E2 & E3 & E4 & E5).
    assert (Hwh : Player.width p = Fin w /\ Player.height p = Fin h).
    { unfold Player.width, Player.height, playerBounds, GameObject.getBounds
        in Hb |- *.
      injection Hb as _ _ -> ->. split; reflexivity. }
    destruct Hwh as [Ew Eh].
    split; [rewrite <- Ew, <- Eh; apply clearOf_existsb; exact E5|].
    rewrite Ew in E3. rewrite Eh in E4.
    intros Hdx Hdy.
    destruct dx as [|dx]; [contradiction|].
    destruct dy as [|dy]; [contradiction|].
    unfold gt, lt, add, CONFIG.CANVAS.WIDTH, CONFIG.CANVAS.HEIGHT in E1, E2, E3, E4.
    unfold withinWorld, ge, le, add, CONFIG.CANVAS.WIDTH, CONFIG.CANVAS.HEIGHT.
    cbn [Rect.x Rect.y Rect.width Rect.height]. qprop; lra.
  - unfold playerBounds. rewrite Ho. fold (playerBounds p).
    split; [exact Hclear|]. intros _ _. exact Hin.
Qed.

Lemma move_no_tunneling_witness :
  let p := Player.new "obj_p" in
  let p' := fst (Player.move p (Fin 2) (Fin (-2)) CONFIG.COLLISION_BOXES) in
  clearOf (playerBounds p') CONFIG.COLLISION_BOXES /\
  withinWorld (playerBounds p') = true.
Proof.
  intros p p'.
  destruct (move_no_tunneling p (Fin 2) (Fin (-2)) CONFIG.COLLISION_BOXES)
    as [H1 H2]; try reflexivity.
  - apply clearOf_existsb. reflexivity.
  - split; [exact H1|]. apply H2; discriminate.
Defined.

(** The claim at a displacement that is not a number: the new player
    lies inside the world and overlaps no collision box; [move] with
    [dx = NaN] is committed, since every comparison with NaN is false,
    and the player is then at [x = NaN], not inside the world. *)
Lemma move_NaN_leaves_world :
  let p := Player.new "obj_p" in
  let r := Player.move p NaN (Fin 0) CONFIG.COLLISION_BOXES in
  withinWorld (playerBounds p) = true /\
  clearOf (playerBounds p) CONFIG.COLLISION_BOXES /\
  snd r = true /\
  Player.x (fst r) = NaN /\
  ~ (clearOf (playerBounds (fst r)) CONFIG.COLLISION_BOXES /\
     withinWorld (playerBounds (fst r)) = true).
Proof.
  intros p r.
  split; [reflexivity|].
  split; [apply clearOf_existsb; reflexivity|].
  split; [reflexivity|].
  split; [reflexivity|].
  intros [_ H]. vm_compute in H. discriminate H.
Qed.



(** A target that [canMoveTo] rejects is refused whole. *)
Lemma move_refused (p : Player.t) (dx dy : num) (obstacles : list Rect.t) :
  Player.canMoveTo p (add (Player.x p) dx) (add (Player.y p) dy) obstacles
    = false ->
  Player.move p dx dy obstacles =
    ({| Player.obj := Player.obj p; Player.speed := Player.speed p;
        Player.direction := Player.direction p;
        Player.lastPosition := Point.mk (Player.x p) (Player.y p) |}, false).
Proof.
  intro H. unfold Player.move.
  match goal with |- context [Player.canMoveTo ?q ?a ?b ?c] =>
    change (Player.canMoveTo q a b c)
      with (Player.canMoveTo p (add (Player.x p) dx) (add (Player.y p) dy)
              obstacles) end.
  rewrite H. reflexivity.
Qed.

(** A target inside the world that overlaps an obstacle is rejected. *)
Lemma canMoveTo_overlap (p : Player.t) (x0 y0 : num) (obstacles : list Rect.t) :
  existsb (fun box =>
    ValidationUtils.isColliding
      (Rect.mk x0 y0 (Player.width p) (Player.height p)) box) obstacles = true ->
  Player.canMoveTo p x0 y0 obstacles = false.
Proof.
  intro H. unfold Player.canMoveTo.
  match goal with |- context [if ?c then false else _] => destruct c end;
    [reflexivity|].
  apply negb_false_iff. exact H.
Qed.

(** C3, as the code has it. In scenario A the attempt [dy = -10] is not
    blocked: the target rectangle reaches [y = 30], the lower edge of the
    top wall, and touching is no overlap, so the move is committed and
    the player stands at [y = 30].  An attempt [(0, dy)] is blocked
    whenever the target ordinate that [move] computes, [40 + dy], is
    below 30, as for [dy = -11]: [move] returns [false] and [y] stays
    40. *)
Theorem scenarioA_top_wall (dy : num) :
  let boxes := CONFIG.COLLISION_BOXES in
  (let r := Player.move scenarioA_player (Fin 0) (Fin (-10)) boxes in
   snd r = true /\ Player.x (fst r) = Fin 500 /\ Player.y (fst r) = Fin 30) /\
  (lt (add (Player.y scenarioA_player) dy) (Fin 30) = true ->
   let r := Player.move scenarioA_player (Fin 0) dy boxes in
   snd r = false /\ Player.x (fst r) = Fin 500 /\ Player.y (fst r) = Fin 40).
Proof.
  intro boxes. split.
  - vm_compute. repeat split.
  - intros Hdy r. subst r.
    rewrite move_refused; [repeat split|].
    change (Player.x scenarioA_player) with (Fin 500).
    change (Player.y scenarioA_player) with (Fin 40) in Hdy |- *.
    destruct dy as [|dy]; [discriminate Hdy|].
    unfold Player.canMoveTo.
    change (Player.width scenarioA_player) with (Fin 16).
    change (Player.height scenarioA_player) with (Fin 32).
    match goal with |- (if ?c then false else _) = false =>
      destruct c eqn:E end; [reflexivity|].
    apply negb_false_iff.
    subst boxes. unfold CONFIG.COLLISION_BOXES.
    cbn [existsb]. apply orb_true_iff. left.
    unfold gt, lt, add in E, Hdy.
    unfold ValidationUtils.isColliding, CONFIG.box, gt, lt, add.
    cbn [Rect.x Rect.y Rect.width Rect.height].
    qprop; lra.
Qed.

Lemma scenarioA_top_wall_witness :
  let r := Player.move scenarioA_player (Fin 0) (Fin (-11))
             CONFIG.COLLISION_BOXES in
  snd r = false /\ Player.x (fst r) = Fin 500 /\ Player.y (fst r) = Fin 40.
Proof.
  apply (proj2 (scenarioA_top_wall (Fin (-11)))). reflexivity.
Defined.

(** Scenario A as the specification words it does not hold: the move
    [dy = -10] from (500, 40) is neither blocked nor does [y] stay 40. *)
Lemma scenarioA_dy10_not_blocked :
  let r := Player.move scenarioA_player (Fin 0) (Fin (-10))
             CONFIG.COLLISION_BOXES in
  ValidationUtils.isColliding (playerBounds (fst r)) (CONFIG.box 0 0 1094 30)
    = false /\
  ~ (snd r = false /\ Player.y (fst r) = Fin 40).
Proof.
  split.
  - vm_compute. reflexivity.
  - vm_compute. intros [H _]. discriminate H.
Qed.

(** ** Axis separation *)

(** C2, as the code has it. When the diagonal target and the X-only
    translation collide and the Y-only translation does not,
    [getMovementResponse] answers with the slide along the free axis:
    [adjustedX] is the current [x], [adjustedY] is [y + dy],
    [canMove = false], [canMoveX = false], [canMoveY = true].  The
    player's own [move], the one the frame update calls, does not slide:
    it refuses the whole displacement and the position is unchanged. *)
Theorem slide_only_in_getMovementResponse
    (cs : CollisionSystem.t) (p : Player.t) (dx dy : num)
    (obstacles : list Rect.t) :
  let e := Player.obj p in
  let x := GameObject.x e in
  let y := GameObject.y e in
  let w := GameObject.width e in
  let h := GameObject.height e in
  let boxes := Some obstacles in
  CollisionSystem.wouldCollide cs x y (add x dx) (add y dy) w h boxes = true ->
  CollisionSystem.wouldCollide cs x y (add x dx) y w h boxes = true ->
  CollisionSystem.wouldCollide cs x y x (add y dy) w h boxes = false ->
  CollisionSystem.getMovementResponse cs e dx dy boxes =
    {| CollisionSystem.canMove := false;
       CollisionSystem.adjustedX := x;
       CollisionSystem.adjustedY := add y dy;
       CollisionSystem.canMoveX := Some false;
       CollisionSystem.canMoveY := Some true |} /\
  snd (Player.move p dx dy obstacles) = false /\
  Player.obj (fst (Player.move p dx dy obstacles)) = e.
Proof.
  intros e x y w h boxes Hxy Hx Hy. split.
  - unfold CollisionSystem.getMovementResponse.
    cbn [GameObject.getBounds Rect.x Rect.y Rect.width Rect.height].
    fold e. fold x y w h.
    rewrite Hxy, Hx, Hy. reflexivity.
  - rewrite move_refused; [split; reflexivity|].
    apply canMoveTo_overlap. exact Hxy.
Qed.

Lemma slide_only_in_getMovementResponse_witness :
  let p := scenarioC_player in
  let e := Player.obj p in
  CollisionSystem.getMovementResponse CollisionSystem.new e (Fin 5) (Fin 5)
      (Some scenarioC_obstacles) =
    {| CollisionSystem.canMove := false;
       CollisionSystem.adjustedX := GameObject.x e;
       CollisionSystem.adjustedY := add (GameObject.y e) (Fin 5);
       CollisionSystem.canMoveX := Some false;
       CollisionSystem.canMoveY := Some true |} /\
  snd (Player.move p (Fin 5) (Fin 5) scenarioC_obstacles) = false /\
  Player.obj (fst (Player.move p (Fin 5) (Fin 5) scenarioC_obstacles)) = e.
Proof.
  intros p e.
  apply (slide_only_in_getMovementResponse CollisionSystem.new p
           (Fin 5) (Fin 5) scenarioC_obstacles); reflexivity.
Defined.

(** Scenario C on the player: the obstacle blocks the X-only
    translation and not the Y-only one, yet the displacement that [move]
    commits for the attempt (5, 5) is not (0, 5). *)
Lemma scenarioC_move_does_not_slide :
  let p := scenarioC_player in
  let obs := scenarioC_obstacles in
  Player.canMoveTo p (Fin 105) (Fin 100) obs = false /\
  Player.canMoveTo p (Fin 100) (Fin 105) obs = true /\
  Player.x p = Fin 100 /\ Player.y p = Fin 100 /\
  let p' := fst (Player.move p (Fin 5) (Fin 5) obs) in
  ~ (Player.x p' = Fin 100 /\ Player.y p' = Fin 105).
Proof.
  repeat split; try reflexivity.
  vm_compute. intros [_ H]. discriminate H.
Qed.

(** ** The proximity state machine *)

Lemma update_in_range (d : Dog.t) (p : GameObject.t) (sa bg : bool) (now : Z) :
  Dog.isPlayerInRange d p = true ->
  Dog.update d (Some p) sa bg now = Ok (Dog.activate d sa bg now).
Proof.
  unfold Dog.isPlayerInRange, Dog.update. intros ->. reflexivity.
Qed.

Lemma update_out_of_range (d : Dog.t) (p : GameObject.t) (sa bg : bool) (now : Z) :
  Dog.isPlayerInRange d p = false ->
  Dog.update d (Some p) sa bg now = Ok (Dog.deactivate d sa bg now).
Proof.
  unfold Dog.isPlayerInRange, Dog.update. intros ->. reflexivity.
Qed.

(** The range test reads the position and the name of the dog only. *)
Lemma isPlayerInRange_ext (d d' : Dog.t) (p : GameObject.t) :
  Dog.obj d' = Dog.obj d -> Dog.name d' = Dog.name d ->
  Dog.isPlayerInRange d' p = Dog.isPlayerInRange d p.
Proof.
  intros Ho Hn. unfold Dog.isPlayerInRange, Dog.threshold, Dog.isMe.
  rewrite Ho, Hn. reflexivity.
Qed.

(** Entering: a sitting dog whose latch is open jumps, closes the latch,
    stamps the time and triggers its audio. *)
Lemma activate_enters (d : Dog.t) (tk : Tick) :
  Dog.state d = Dog.sit -> Dog.barked d = false ->
  let r := Dog.activate d (tk_special tk) (tk_bg tk) (tk_now tk) in
  snd r = enterEffects d tk /\
  Dog.state (fst r) = Dog.jump /\ Dog.barked (fst r) = true /\
  Dog.stateChangeTime (fst r) = tk_now tk /\
  Dog.obj (fst r) = Dog.obj d /\ Dog.name (fst r) = Dog.name d.
Proof.
  intros Hs Hb. unfold Dog.activate, enterEffects, Dog.setState.
  rewrite Hs, Hb. simpl.
  destruct (Dog.isMe d); simpl; repeat split.
Qed.

(** A jumping dog with a closed latch ignores [activate]. *)
Lemma activate_idle (d : Dog.t) (sa bg : bool) (now : Z) :
  Dog.state d = Dog.jump -> Dog.barked d = true ->
  Dog.activate d sa bg now = (d, []).
Proof.
  intros Hs Hb. unfold Dog.activate. rewrite Hs, Hb.
  destruct (Dog.isMe d); reflexivity.
Qed.

Lemma runUpdates_idle (d : Dog.t) (ticks : list Tick) :
  Dog.state d = Dog.jump -> Dog.barked d = true ->
  Forall (inRadius d) ticks ->
  runUpdates d ticks = map (fun _ => (d, [])) ticks.
Proof.
  intros Hs Hb. induction 1 as [|tk rest (p & Hp & Hin) _ IH]; [reflexivity|].
  cbn [runUpdates map]. unfold updateStep.
  rewrite Hp, (update_in_range _ _ _ _ _ Hin), (activate_idle _ _ _ _ Hs Hb).
  cbn [fst]. rewrite IH. reflexivity.
Qed.

Lemma enterCount_jump (n : list Tick) (d : Dog.t) :
  Dog.state d = Dog.jump ->
  enterCount Dog.jump
    (map (fun r : Dog.t * list Dog.effect => Dog.state (fst r))
         (map (fun _ => (d, [])) n)) = 0%nat.
Proof.
  intro Hs. induction n as [|tk n IH]; [reflexivity|].
  cbn [map enterCount fst]. rewrite Hs. simpl. exact IH.
Qed.

(** C4. Idempotent re-entry guard: a dog that sits with an open latch
    and is updated on N > 1 consecutive frames, the player strictly
    inside its radius on each, enters exactly once, on the first frame:
    that call makes it jump, closes the latch and triggers the audio;
    each of the other N - 1 calls changes nothing and triggers nothing. *)
Theorem enter_fires_once (d : Dog.t) (ticks : list Tick) :
  Dog.state d = Dog.sit ->
  Dog.barked d = false ->
  (1 < List.length ticks)%nat ->
  Forall (inRadius d) ticks ->
  exists tk rest d1,
    ticks = tk :: rest /\
    runUpdates d ticks =
      (d1, enterEffects d tk) :: map (fun _ => (d1, [])) rest /\
    Dog.state d1 = Dog.jump /\
    Dog.barked d1 = true /\
    Dog.stateChangeTime d1 = tk_now tk /\
    enterCount (Dog.state d)
      (map (fun r => Dog.state (fst r)) (runUpdates d ticks)) = 1%nat.
Proof.
  intros Hs Hb Hlen Hall.
  destruct ticks as [|tk rest]; [simpl in Hlen; lia|].
  inversion Hall as [|? ? (p & Hp & Hin) Hrest]; subst.
  destruct (activate_enters d tk Hs Hb) as (Hfx & Hs1 & Hb1 & Ht1 & Ho1 & Hn1).
  set (r := Dog.activate d (tk_special tk) (tk_bg tk) (tk_now tk)) in *.
  assert (Hstep : updateStep d tk = (fst r, enterEffects d tk)).
  { unfold updateStep. rewrite Hp, (update_in_range _ _ _ _ _ Hin).
    fold r. rewrite <- Hfx. destruct r; reflexivity. }
  assert (Hrest1 : Forall (inRadius (fst r)) rest).
  { eapply Forall_impl; [|exact Hrest].
    intros tk' (p' & Hp' & Hin'). exists p'. split; [exact Hp'|].
    rewrite (isPlayerInRange_ext d (fst r) p' Ho1 Hn1). exact Hin'. }
  assert (Hrun : runUpdates d (tk :: rest) =
                 (fst r, enterEffects d tk) :: map (fun _ => (fst r, [])) rest).
  { cbn [runUpdates]. rewrite Hstep. cbn [fst].
    rewrite (runUpdates_idle _ _ Hs1 Hb1 Hrest1). reflexivity. }
  exists tk, rest, (fst r). repeat split; try assumption.
  rewrite Hrun. cbn [map enterCount fst]. rewrite Hs, Hs1. simpl.
  rewrite (enterCount_jump rest (fst r) Hs1). reflexivity.
Qed.

Lemma enter_fires_once_witness :
  exists tk rest d1,
    nearTicks = tk :: rest /\
    runUpdates roti nearTicks =
      (d1, enterEffects roti tk) :: map (fun _ => (d1, [])) rest /\
    Dog.state d1 = Dog.jump /\
    Dog.barked d1 = true /\
    Dog.stateChangeTime d1 = tk_now tk /\
    enterCount (Dog.state roti)
      (map (fun r => Dog.state (fst r)) (runUpdates roti nearTicks)) = 1%nat.
Proof.
  apply (enter_fires_once roti nearTicks).
  - reflexivity.
  - reflexivity.
  - simpl. lia.
  - repeat constructor; exists nearPlayer; split; reflexivity.
Defined.

(** Every operation other than a direct [setState] keeps the latch and
    the state in agreement. *)
Lemma applyOp_latchAgrees (d : Dog.t) (op : DogOp) :
  isSetState op = false -> latchAgrees d -> latchAgrees (applyOp d op).
Proof.
  unfold latchAgrees. intros Hop.
  destruct op as [tk|sa bg now|sa bg now|s now|now]; try discriminate;
    cbn [applyOp].
  - unfold updateStep, Dog.update.
    destruct (tk_player tk) as [p|]; [|trivial].
    destruct (root_lt _ _);
      unfold Dog.activate, Dog.deactivate, Dog.setState;
      destruct (Dog.isMe d), (Dog.state d) eqn:Es, (Dog.barked d) eqn:Eb;
      simpl; rewrite ?Es, ?Eb; intuition congruence.
  - unfold Dog.activate, Dog.setState.
    destruct (Dog.isMe d), (Dog.state d) eqn:Es, (Dog.barked d) eqn:Eb;
      simpl; rewrite ?Es, ?Eb; intuition congruence.
  - unfold Dog.deactivate, Dog.setState.
    destruct (Dog.isMe d), (Dog.state d) eqn:Es, (Dog.barked d) eqn:Eb;
      simpl; rewrite ?Es, ?Eb; intuition congruence.
  - unfold Dog.reset, Dog.setState.
    destruct (Dog.state d) eqn:Es, (Dog.barked d) eqn:Eb;
      simpl; rewrite ?Es, ?Eb; intuition congruence.
Qed.

Lemma fold_applyOp_latchAgrees (ops : list DogOp) (d : Dog.t) :
  forallb (fun op => negb (isSetState op)) ops = true ->
  latchAgrees d -> latchAgrees (fold_left applyOp ops d).
Proof.
  revert d. induction ops as [|op ops IH]; intros d Hops Hinv; [exact Hinv|].
  cbn [forallb] in Hops. apply andb_true_iff in Hops. destruct Hops as [H1 H2].
  cbn [fold_left]. apply IH; [exact H2|].
  apply applyOp_latchAgrees; [|exact Hinv].
  apply negb_true_iff. exact H1.
Qed.

(** C5, as the code has it. From a dog in the initial state ([sit],
    latch open), every sequence of [update], [activate], [deactivate]
    and [reset] leaves the latch closed exactly when the state is
    [jump]. *)
Theorem latch_agrees_without_setState (d : Dog.t) (ops : list DogOp) :
  Dog.state d = Dog.sit ->
  Dog.barked d = false ->
  forallb (fun op => negb (isSetState op)) ops = true ->
  latchAgrees (fold_left applyOp ops d).
Proof.
  intros Hs Hb Hops.
  apply fold_applyOp_latchAgrees; [exact Hops|].
  unfold latchAgrees. rewrite Hs, Hb. split; discriminate.
Qed.

Lemma latch_agrees_without_setState_witness :
  let ops := [OpUpdate (mkTick (Some nearPlayer) false false 1000);
              OpDeactivate false false 1200; OpActivate false false 1300;
              OpReset 1400] in
  latchAgrees (fold_left applyOp ops roti).
Proof.
  intro ops.
  apply (latch_agrees_without_setState roti ops); reflexivity.
Defined.

(** With [setState] among the operations the latch and the state come
    apart: one call on the initial dog makes it jump with an open
    latch. *)
Lemma setState_breaks_latch :
  ~ latchAgrees (fold_left applyOp [OpSetState Dog.jump 1000] roti).
Proof.
  unfold latchAgrees. vm_compute. intros [_ H].
  specialize (H eq_refl). discriminate H.
Qed.

Lemma add_NaN_r (a : num) : add a NaN = NaN.
Proof. destruct a; reflexivity. Qed.

Lemma sub_NaN_r (a : num) : sub a NaN = NaN.
Proof. destruct a; reflexivity. Qed.

(** A player with a NaN coordinate is at no distance. *)
Lemma distanceTo_NaN (o p : GameObject.t) :
  GameObject.x p = NaN \/ GameObject.y p = NaN ->
  GameObject.distanceTo o p = RNaN.
Proof.
  unfold GameObject.distanceTo, GameObject.getCenter,
    ValidationUtils.calculateDistance.
  cbn [Point.x Point.y]. intros [H|H]; rewrite H; cbn [add].
  - rewrite sub_NaN_r. reflexivity.
  - rewrite sub_NaN_r. cbn [mul]. rewrite add_NaN_r. reflexivity.
Qed.

(** C8, as the code has it. An absent player makes [update] throw
    before it writes anything. A player with a NaN coordinate fails the
    test [distance < threshold], so [update] runs [deactivate]: the dog
    is in [sit] afterwards and nothing of an enter is triggered; a dog
    that was sitting keeps its state and its time stamp and triggers
    nothing; a dog that was jumping is sent back to [sit] and the time
    of the change is stamped. *)
Theorem invalid_player_deactivates (d : Dog.t) (p : GameObject.t)
    (sa bg : bool) (now : Z) :
  GameObject.x p = NaN \/ GameObject.y p = NaN ->
  Dog.update d None sa bg now = Throw "TypeError" /\
  Dog.update d (Some p) sa bg now = Ok (Dog.deactivate d sa bg now) /\
  let r := Dog.deactivate d sa bg now in
  Dog.state (fst r) = Dog.sit /\
  (forall e, In e (snd r) -> e = Dog.SpecialStop \/ e = Dog.BgVolume 1) /\
  (Dog.state d = Dog.sit ->
   snd r = [] /\ Dog.stateChangeTime (fst r) = Dog.stateChangeTime d) /\
  (Dog.state d = Dog.jump -> Dog.stateChangeTime (fst r) = now).
Proof.
  intro Hnan. split; [reflexivity|]. split.
  - apply update_out_of_range. unfold Dog.isPlayerInRange.
    rewrite (distanceTo_NaN _ _ Hnan). reflexivity.
  - unfold Dog.deactivate, Dog.setState.
    destruct (Dog.isMe d), (Dog.state d) eqn:Es, sa, bg;
      simpl; rewrite ?Es; repeat split;
      try discriminate; try (intros e []); intuition (subst; auto).
Qed.

Lemma invalid_player_deactivates_witness :
  Dog.update roti_jumping None false false 2000 = Throw "TypeError" /\
  Dog.update roti_jumping (Some nanPlayer) false false 2000 =
    Ok (Dog.deactivate roti_jumping false false 2000) /\
  let r := Dog.deactivate roti_jumping false false 2000 in
  Dog.state (fst r) = Dog.sit /\
  (forall e, In e (snd r) -> e = Dog.SpecialStop \/ e = Dog.BgVolume 1) /\
  (Dog.state roti_jumping = Dog.sit ->
   snd r = [] /\
   Dog.stateChangeTime (fst r) = Dog.stateChangeTime roti_jumping) /\
  (Dog.state roti_jumping = Dog.jump -> Dog.stateChangeTime (fst r) = 2000%Z).
Proof.
  apply (invalid_player_deactivates roti_jumping nanPlayer false false 2000).
  left. reflexivity.
Defined.

(** A jumping dog handed a player with NaN coordinates does not hold
    its state: the call returns it to [sit]. *)
Lemma nan_player_ends_jump :
  Dog.state roti_jumping = Dog.jump /\
  Dog.barked roti_jumping = true /\
  ~ (Dog.state (fst (updateStep roti_jumping
                       (mkTick (Some nanPlayer) false false 2000)))
     = Dog.state roti_jumping).
Proof.
  repeat split. vm_compute. discriminate.
Qed.

(** The progress never exceeds 1. *)
Lemma getAnimationProgress_le_1 (d : Dog.t) (now : Z) :
  (0 < Dog.animationDuration d)%Z ->
  le (Dog.getAnimationProgress d now) (Fin 1) = true.
Proof.
  intro Hd. unfold Dog.getAnimationProgress, div.
  destruct (Qeq_bool (inject_Z (Dog.animationDuration d)) 0) eqn:E.
  - apply Qeq_bool_iff in E. unfold Qeq, inject_Z in E. simpl in E. lia.
  - unfold JS.min, le.
    match goal with |- context [Qlt_bool ?a ?b] =>
      destruct (Qlt_bool a b) eqn:E1 end; qprop; lra.
Qed.

(** With a clock that has not gone back the progress is in [0, 1]. *)
Lemma getAnimationProgress_range (d : Dog.t) (now : Z) :
  (0 < Dog.animationDuration d)%Z ->
  (Dog.stateChangeTime d <= now)%Z ->
  ge (Dog.getAnimationProgress d now) (Fin 0) = true /\
  le (Dog.getAnimationProgress d now) (Fin 1) = true.
Proof.
  intros Hd Hnow. split; [|apply getAnimationProgress_le_1; exact Hd].
  unfold Dog.getAnimationProgress, div.
  destruct (Qeq_bool (inject_Z (Dog.animationDuration d)) 0) eqn:E.
  - apply Qeq_bool_iff in E. unfold Qeq, inject_Z in E. simpl in E. lia.
  - assert (H0 : 0 <= inject_Z (now - Dog.stateChangeTime d) /
                       inject_Z (Dog.animationDuration d)).
    { apply Qle_shift_div_l.
      - change 0 with (inject_Z 0). rewrite <- Zlt_Qlt. exact Hd.
      - rewrite Qmult_0_l. change 0 with (inject_Z 0).
        rewrite <- Zle_Qle. lia. }
    unfold JS.min, ge, le.
    match goal with |- context [Qlt_bool ?a ?b] =>
      destruct (Qlt_bool a b) eqn:E1 end; qprop; lra.
Qed.

(** C9 at the failing input. Roti started to jump at time 1000; asked
    at time 500, after the clock went back, [getAnimationProgress]
    answers -1, below the lower end of the documented range 0-1. *)
Theorem getAnimationProgress_below_zero :
  Dog.stateChangeTime roti_jumping = 1000%Z /\
  (exists q, Dog.getAnimationProgress roti_jumping 500 = Fin q /\ q == -1) /\
  lt (Dog.getAnimationProgress roti_jumping 500) (Fin 0) = true.
Proof.
  split; [reflexivity|]. split; [|reflexivity].
  eexists. split; [vm_compute; reflexivity|reflexivity].
Qed.

(** ** The bump cooldown *)

(** One request: it plays the sound exactly when the cooldown has
    elapsed since [lastBumpTime], and then it records its own time. *)
Lemma playBumpSound_spec (g : Game.t) (now : Z) :
  let r := Game.playBumpSound g now in
  (fired (snd r) = true <->
   (Game.bumpCooldown g <= now - Game.lastBumpTime g)%Z) /\
  Game.lastBumpTime (fst r) =
    (if fired (snd r) then now else Game.lastBumpTime g) /\
  Game.bumpCooldown (fst r) = Game.bumpCooldown g /\
  Game.player (fst r) = Game.player g /\
  Game.musicStarted (fst r) = Game.musicStarted g.
Proof.
  unfold Game.playBumpSound.
  destruct (now - Game.lastBumpTime g <? Game.bumpCooldown g)%Z eqn:E;
    cbn [fst snd fired Game.lastBumpTime Game.bumpCooldown Game.player
         Game.musicStarted].
  - apply Z.ltb_lt in E. repeat split; try discriminate. lia.
  - apply Z.ltb_ge in E. repeat split; intros; assumption.
Qed.

(** A refused move leaves the object and the speed of the player. *)
Lemma move_false_obj (p : Player.t) (dx dy : num) (obstacles : list Rect.t) :
  snd (Player.move p dx dy obstacles) = false ->
  Player.obj (fst (Player.move p dx dy obstacles)) = Player.obj p /\
  Player.speed (fst (Player.move p dx dy obstacles)) = Player.speed p.
Proof.
  unfold Player.move.
  match goal with |- context [Player.canMoveTo ?q ?a ?b ?c] =>
    destruct (Player.canMoveTo q a b c) end; cbn [fst snd]; [discriminate|].
  intros _. split; reflexivity.
Qed.

Lemma setDirection_obj (p : Player.t) (d : string) :
  Player.obj (Player.setDirection p d) = Player.obj p.
Proof.
  unfold Player.setDirection.
  destruct (existsb _ _); reflexivity.
Qed.

Lemma setDirection_speed (p : Player.t) (d : string) :
  Player.speed (Player.setDirection p d) = Player.speed p.
Proof.
  unfold Player.setDirection.
  destruct (existsb _ _); reflexivity.
Qed.

(** Whether an attempt is blocked depends on the object and the speed of
    the player only. *)
Lemma blockedAttempt_ext (p q : Player.t) (m : Game.Movement) :
  Player.obj p = Player.obj q ->
  Player.speed p = Player.speed q ->
  blockedAttempt p m = blockedAttempt q m.
Proof.
  destruct p as [o s d l], q as [o' s' d' l'].
  cbn [Player.obj Player.speed]. intros <- <-.
  unfold blockedAttempt, Player.move, Player.canMoveTo,
    Player.x, Player.y, Player.width, Player.height.
  cbn [Player.obj Player.speed Player.direction Player.lastPosition].
  f_equal. f_equal.
  match goal with |- context [if ?c then _ else _] => destruct c end;
    reflexivity.
Qed.

(** One frame of the movement step: the bump sound plays exactly on a
    blocked-move attempt, once the music has started, when the cooldown
    has elapsed since [lastBumpTime]; the frame then records its time. *)
Lemma updatePlayer_spec (g : Game.t) (m : Game.Movement) (now : Z) :
  let r := Game.updatePlayer g m now in
  (fired (snd r) = true <->
   blockedAttempt (Game.player g) m = true /\
   Game.musicStarted g = true /\
   (Game.bumpCooldown g <= now - Game.lastBumpTime g)%Z) /\
  Game.lastBumpTime (fst r) =
    (if fired (snd r) then now else Game.lastBumpTime g) /\
  Game.bumpCooldown (fst r) = Game.bumpCooldown g /\
  Game.musicStarted (fst r) = Game.musicStarted g.
Proof.
  intro r. subst r. unfold Game.updatePlayer, blockedAttempt.
  destruct (strict_neq (Game.mdx m) (Fin 0) || strict_neq (Game.mdy m) (Fin 0))
    eqn:Hm; cbn [andb].
  - destruct (Player.move _ _ _ _) as [p1 moved]. cbn [snd].
    destruct moved; cbn [negb andb Game.musicStarted].
    + cbn [fst snd fired Game.lastBumpTime Game.bumpCooldown Game.musicStarted].
      repeat split; try discriminate. intros (H & _). discriminate H.
    + destruct (Game.musicStarted g) eqn:Hmu.
      * match goal with |- context [Game.playBumpSound ?g1 now] =>
          destruct (playBumpSound_spec g1 now) as (Hf & Hl & Hc & _ & Hms) end.
        cbv zeta in Hf, Hl, Hc, Hms.
        cbn [Game.lastBumpTime Game.bumpCooldown Game.musicStarted]
          in Hf, Hl, Hc, Hms.
        repeat split; try assumption.
        -- apply Hf. assumption.
        -- intros (_ & _ & H). apply Hf. exact H.
      * cbn [fst snd fired Game.lastBumpTime Game.bumpCooldown
             Game.musicStarted].
        repeat split; try discriminate; try assumption.
        intros (_ & H & _). discriminate H.
  - cbn [fst snd fired]. repeat split; try discriminate.
    intros (H & _). discriminate H.
Qed.

(** A blocked frame leaves the player where it stands, at its speed. *)
Lemma updatePlayer_blocked_player (g : Game.t) (m : Game.Movement) (now : Z) :
  blockedAttempt (Game.player g) m = true ->
  let r := Game.updatePlayer g m now in
  Player.obj (Game.player (fst r)) = Player.obj (Game.player g) /\
  Player.speed (Game.player (fst r)) = Player.speed (Game.player g).
Proof.
  intros Hb r. subst r. unfold blockedAttempt in Hb.
  apply andb_true_iff in Hb. destruct Hb as [Hm Hb].
  apply negb_true_iff in Hb.
  destruct (move_false_obj _ _ _ _ Hb) as [Ho Hs].
  unfold Game.updatePlayer. rewrite Hm.
  destruct (Player.move _ _ _ _) as [p1 moved].
  cbn [fst snd] in Hb, Ho, Hs. subst moved.
  cbn [negb andb Game.musicStarted].
  assert (Hp2 : forall p2,
            p2 = match Game.mdirection m with
                 | Some d => Player.setDirection p1 d
                 | None => p1
                 end ->
            Player.obj p2 = Player.obj (Game.player g) /\
            Player.speed p2 = Player.speed (Game.player g)).
  { intros p2 ->. destruct (Game.mdirection m) as [d|].
    - rewrite setDirection_obj, setDirection_speed. split; assumption.
    - split; assumption. }
  destruct (Game.musicStarted g).
  - match goal with |- context [Game.playBumpSound ?g1 now] =>
      destruct (playBumpSound_spec g1 now) as (_ & _ & _ & Hp & _) end.
    cbv zeta in Hp. rewrite Hp. cbn [Game.player]. apply Hp2. reflexivity.
  - cbn [fst Game.player]. apply Hp2. reflexivity.
Qed.

Lemma runAttempts_spec (frames : list (Game.Movement * Z)) :
  forall (g : Game.t) (pre post : list Attempt) (a : Attempt),
    runAttempts g frames = pre ++ a :: post ->
    (a_fired a = true <->
     a_blocked a = true /\ Game.musicStarted g = true /\
     (Game.bumpCooldown g <= a_time a - lastBump (Game.lastBumpTime g) pre)%Z).
Proof.
  induction frames as [|f rest IH]; intros g pre post a Hrun.
  - destruct pre; discriminate Hrun.
  - cbn [runAttempts] in Hrun.
    destruct (updatePlayer_spec g (fst f) (snd f)) as (Hf & Hl & Hc & Hm).
    cbv zeta in Hf, Hl, Hc, Hm.
    destruct pre as [|a0 pre'].
    + cbn [app] in Hrun. injection Hrun as <- _.
      unfold lastBump. cbn [fold_left a_fired a_blocked a_time]. exact Hf.
    + cbn [app] in Hrun. injection Hrun as <- Hrun.
      apply IH in Hrun. rewrite Hc, Hl, Hm in Hrun.
      unfold lastBump in *. cbn [fold_left a_fired a_time]. exact Hrun.
Qed.

(** C6, as the code has it.  Through any frames of [updatePlayer], with a
    cooldown of 150 ms, a frame plays the bump sound exactly when its
    movement is a blocked-move attempt, the music has started, and at
    least 150 ms have passed since the last frame that played it (since
    the [lastBumpTime] the game started with, when none has so far).  In
    particular, once the music has started, of three blocked-move
    attempts, the first one due, the second less than 150 ms after the
    first and the third at least 150 ms after the first, the first and
    the third play the sound and the second does not. *)
Theorem blocked_moves_bump_debounced (g : Game.t)
    (frames : list (Game.Movement * Z)) :
  Game.bumpCooldown g = 150%Z ->
  (forall pre post a,
     runAttempts g frames = pre ++ a :: post ->
     (a_fired a = true <->
      a_blocked a = true /\ Game.musicStarted g = true /\
      (150 <= a_time a - lastBump (Game.lastBumpTime g) pre)%Z)) /\
  (forall m1 m2 m3 t1 t2 t3,
     Game.musicStarted g = true ->
     blockedAttempt (Game.player g) m1 = true ->
     blockedAttempt (Game.player g) m2 = true ->
     blockedAttempt (Game.player g) m3 = true ->
     (150 <= t1 - Game.lastBumpTime g)%Z ->
     (t2 - t1 < 150)%Z ->
     (150 <= t3 - t1)%Z ->
     runAttempts g [(m1, t1); (m2, t2); (m3, t3)] =
       [mkAttempt t1 true true; mkAttempt t2 true false;
        mkAttempt t3 true true]).
Proof.
  intro Hc. split.
  - intros pre post a Hrun. rewrite <- Hc.
    apply (runAttempts_spec frames g pre post a Hrun).
  - intros m1 m2 m3 t1 t2 t3 Hmu Hb1 Hb2 Hb3 H1 H2 H3.
    cbn [runAttempts fst snd].
    destruct (updatePlayer_spec g m1 t1) as (Hf1 & Hl1 & Hc1 & Hm1).
    destruct (updatePlayer_blocked_player g m1 t1 Hb1) as (Ho1 & Hs1).
    cbv zeta in Hf1, Hl1, Hc1, Hm1, Ho1, Hs1.
    set (g1 := fst (Game.updatePlayer g m1 t1)) in *.
    assert (Hb2' : blockedAttempt (Game.player g1) m2 = true)
      by (rewrite (blockedAttempt_ext _ (Game.player g) m2 Ho1 Hs1); exact Hb2).
    destruct (updatePlayer_spec g1 m2 t2) as (Hf2 & Hl2 & Hc2 & Hm2).
    destruct (updatePlayer_blocked_player g1 m2 t2 Hb2') as (Ho2 & Hs2).
    cbv zeta in Hf2, Hl2, Hc2, Hm2, Ho2, Hs2.
    set (g2 := fst (Game.updatePlayer g1 m2 t2)) in *.
    assert (Hb3' : blockedAttempt (Game.player g2) m3 = true).
    { rewrite (blockedAttempt_ext _ (Game.player g) m3); [exact Hb3| |].
      - rewrite Ho2. exact Ho1.
      - rewrite Hs2. exact Hs1. }
    destruct (updatePlayer_spec g2 m3 t3) as (Hf3 & _).
    cbv zeta in Hf3.
    assert (E1 : fired (snd (Game.updatePlayer g m1 t1)) = true).
    { apply Hf1. repeat split; try assumption. lia. }
    rewrite E1 in Hl1.
    assert (E2 : fired (snd (Game.updatePlayer g1 m2 t2)) = false).
    { apply not_true_iff_false. intro E. apply Hf2 in E.
      destruct E as (_ & _ & E). rewrite Hc1, Hl1 in E. lia. }
    rewrite E2 in Hl2.
    assert (E3 : fired (snd (Game.updatePlayer g2 m3 t3)) = true).
    { apply Hf3. split; [exact Hb3'|]. split.
      - rewrite Hm2, Hm1. exact Hmu.
      - rewrite Hc2, Hc1, Hl2, Hl1. lia. }
    rewrite Hb1, Hb2', Hb3', E1, E2, E3. reflexivity.
Qed.

Lemma blocked_moves_bump_debounced_witness :
  let g := musicOn gameAtWall in
  runAttempts g [(pushUp, 1000000%Z); (pushUp, 1000050%Z); (pushUp, 1000160%Z)] =
    [mkAttempt 1000000 true true; mkAttempt 1000050 true false;
     mkAttempt 1000160 true true].
Proof.
  intro g.
  apply (proj2 (blocked_moves_bump_debounced g [] eq_refl));
    try reflexivity; try lia.
  change (Game.lastBumpTime g) with 0%Z. lia.
Defined.

(** The claim without the music: in a new game, where the music has not
    started, two blocked-move attempts 50 ms apart play no bump sound at
    all, not one. *)
Lemma blocked_moves_silent_before_music :
  let g := gameAtWall in
  let trace := runAttempts g [(pushUp, 1000000%Z); (pushUp, 1000050%Z)] in
  Game.musicStarted g = false /\
  map a_blocked trace = [true; true] /\
  bumpCount trace = 0%nat /\
  ~ bumpCount trace = 1%nat.
Proof.
  vm_compute. repeat split. discriminate.
Qed.

(** ** Further properties of the geometry utilities *)

(** X1. The overlap test does not depend on the order of the rectangles,
    whatever their fields, NaN included. *)
Theorem isColliding_sym (a b : Rect.t) :
  ValidationUtils.isColliding a b = ValidationUtils.isColliding b a.
Proof.
  unfold ValidationUtils.isColliding, gt.
  destruct (lt (Rect.x a) (add (Rect.x b) (Rect.width b))),
           (lt (Rect.x b) (add (Rect.x a) (Rect.width a))),
           (lt (Rect.y a) (add (Rect.y b) (Rect.height b))),
           (lt (Rect.y b) (add (Rect.y a) (Rect.height a))); reflexivity.
Qed.

(** [clamp] applied to its own result changes nothing, and the result is
    between the limits. *)
Theorem clamp_idempotent (v lo hi : Q) :
  lo <= hi ->
  let c := ValidationUtils.clamp (Fin v) (Fin lo) (Fin hi) in
  ValidationUtils.clamp c (Fin lo) (Fin hi) = c /\
  le (Fin lo) c = true /\ le c (Fin hi) = true.
Proof.
  intros Hle c. subst c.
  destruct (clamp_range v lo hi Hle) as (c & -> & H1 & H2).
  split; [apply clamp_inside; assumption|].
  unfold le. split; qprop; assumption.
Qed.

Lemma clamp_idempotent_witness :
  let c := ValidationUtils.clamp (Fin 2000) (Fin 0) (Fin 1078) in
  ValidationUtils.clamp c (Fin 0) (Fin 1078) = c /\
  le (Fin 0) c = true /\ le c (Fin 1078) = true.
Proof.
  apply (clamp_idempotent 2000 0 1078). lra.
Defined.

(** With the limits the wrong way round, [max < min], [clamp] answers
    [max] whatever the value. *)
Lemma clamp_inverted (v lo hi : Q) :
  hi < lo ->
  ValidationUtils.clamp (Fin v) (Fin lo) (Fin hi) = Fin hi.
Proof.
  intro Hlt. unfold ValidationUtils.clamp. simpl.
  destruct (Qlt_bool v lo) eqn:E1; qprop.
  - replace (Qlt_bool hi lo) with true
      by (symmetry; apply Qlt_bool_iff; exact Hlt).
    reflexivity.
  - replace (Qlt_bool hi v) with true
      by (symmetry; apply Qlt_bool_iff; lra).
    reflexivity.
Qed.

(** X2. [getRectOverlap] answers [null] exactly when the rectangles do not
    collide.  For two colliding rectangles whose right and bottom edges,
    [x + width] and [y + height] as the code computes them, lie beyond
    their left and top edges, the overlap has positive width and height,
    and its corner lies in both rectangles: not before their left and
    top edges, and before their right and bottom edges. *)
Theorem getRectOverlap_spec (r1 r2 : Rect.t) :
  (ValidationUtils.getRectOverlap r1 r2 = None <->
   ValidationUtils.isColliding r1 r2 = false) /\
  (lt (Rect.x r1) (add (Rect.x r1) (Rect.width r1)) = true ->
   lt (Rect.y r1) (add (Rect.y r1) (Rect.height r1)) = true ->
   lt (Rect.x r2) (add (Rect.x r2) (Rect.width r2)) = true ->
   lt (Rect.y r2) (add (Rect.y r2) (Rect.height r2)) = true ->
   ValidationUtils.isColliding r1 r2 = true ->
   exists o,
     ValidationUtils.getRectOverlap r1 r2 = Some o /\
     lt (Fin 0) (Rect.width o) = true /\
     lt (Fin 0) (Rect.height o) = true /\
     le (Rect.x r1) (Rect.x o) = true /\
     le (Rect.x r2) (Rect.x o) = true /\
     lt (Rect.x o) (add (Rect.x r1) (Rect.width r1)) = true /\
     lt (Rect.x o) (add (Rect.x r2) (Rect.width r2)) = true /\
     le (Rect.y r1) (Rect.y o) = true /\
     le (Rect.y r2) (Rect.y o) = true /\
     lt (Rect.y o) (add (Rect.y r1) (Rect.height r1)) = true /\
     lt (Rect.y o) (add (Rect.y r2) (Rect.height r2)) = true).
Proof.
  split.
  - unfold ValidationUtils.getRectOverlap.
    destruct (ValidationUtils.isColliding r1 r2); simpl;
      split; intro H; try reflexivity; discriminate H.
  - intros Hw1 Hh1 Hw2 Hh2 Hc.
    unfold ValidationUtils.getRectOverlap. rewrite Hc. cbn [negb].
    eexists. split; [reflexivity|].
    destruct r1 as [[|x1] [|y1] [|w1] [|h1]]; try discriminate;
      destruct r2 as [[|x2] [|y2] [|w2] [|h2]]; try discriminate.
    unfold ValidationUtils.isColliding, gt, lt, add in Hc.
    cbn [Rect.x Rect.y Rect.width Rect.height] in *.
    unfold lt, add in Hw1, Hh1, Hw2, Hh2.
    unfold JS.max, JS.min, sub, lt, le, add.
    destruct (Qlt_bool x1 x2) eqn:Ex, (Qlt_bool y1 y2) eqn:Ey,
             (Qlt_bool (x2 + w2) (x1 + w1)) eqn:Er,
             (Qlt_bool (y2 + h2) (y1 + h1)) eqn:Eb;
      qprop; repeat split; qprop; lra.
Qed.

Lemma getRectOverlap_spec_witness :
  let r1 := CONFIG.box 0 0 10 10 in
  let r2 := CONFIG.box 5 6 10 10 in
  exists o,
    ValidationUtils.getRectOverlap r1 r2 = Some o /\
    lt (Fin 0) (Rect.width o) = true /\
    lt (Fin 0) (Rect.height o) = true /\
    le (Rect.x r1) (Rect.x o) = true /\
    le (Rect.x r2) (Rect.x o) = true /\
    lt (Rect.x o) (add (Rect.x r1) (Rect.width r1)) = true /\
    lt (Rect.x o) (add (Rect.x r2) (Rect.width r2)) = true /\
    le (Rect.y r1) (Rect.y o) = true /\
    le (Rect.y r2) (Rect.y o) = true /\
    lt (Rect.y o) (add (Rect.y r1) (Rect.height r1)) = true /\
    lt (Rect.y o) (add (Rect.y r2) (Rect.height r2)) = true.
Proof.
  intros r1 r2.
  apply (proj2 (getRectOverlap_spec r1 r2)); reflexivity.
Defined.

(** X3. [lerp] clamps its factor, whatever the end points, NaN included:
    a factor above 1 gives what the factor 1 gives and a factor below 0
    what the factor 0 gives, so [lerp] never extrapolates; a factor that
    is not a number gives NaN. *)
Theorem lerp_factor_clamped (s e : num) (t : Q) :
  (1 < t ->
   ValidationUtils.lerp s e (Fin t) = ValidationUtils.lerp s e (Fin 1)) /\
  (t < 0 ->
   ValidationUtils.lerp s e (Fin t) = ValidationUtils.lerp s e (Fin 0)) /\
  ValidationUtils.lerp s e NaN = NaN.
Proof.
  unfold ValidationUtils.lerp, ValidationUtils.clamp.
  cbn [JS.max JS.min].
  split; [|split].
  - intro H.
    replace (Qlt_bool t 0) with false
      by (symmetry; apply Qlt_bool_false_iff; lra).
    replace (Qlt_bool 1 t) with true by (symmetry; apply Qlt_bool_iff; lra).
    reflexivity.
  - intro H.
    replace (Qlt_bool t 0) with true by (symmetry; apply Qlt_bool_iff; lra).
    reflexivity.
  - destruct s, e; reflexivity.
Qed.

Lemma lerp_factor_clamped_witness :
  ValidationUtils.lerp (Fin 10) (Fin 20) (Fin 3) =
    ValidationUtils.lerp (Fin 10) (Fin 20) (Fin 1) /\
  ValidationUtils.lerp (Fin 10) (Fin 20) (Fin (-2)) =
    ValidationUtils.lerp (Fin 10) (Fin 20) (Fin 0).
Proof.
  split.
  - apply (proj1 (lerp_factor_clamped (Fin 10) (Fin 20) 3)). lra.
  - apply (proj1 (proj2 (lerp_factor_clamped (Fin 10) (Fin 20) (-2)))). lra.
Defined.

(** ** Further properties of the entity base model *)

(** Setting an entity that fits the world to the position it already
    has changes nothing. *)
Theorem setPosition_idempotent (o : GameObject.t) (w h x0 y0 : Q) :
  GameObject.width o = Fin w ->
  GameObject.height o = Fin h ->
  w <= 1094 -> h <= 1112 ->
  let o' := GameObject.setPosition o (Fin x0) (Fin y0) in
  GameObject.setPosition o' (GameObject.x o') (GameObject.y o') = o'.
Proof.
  intros Hw Hh Hw1 Hh1 o'. subst o'.
  unfold GameObject.setPosition.
  cbn [GameObject.x GameObject.y GameObject.width GameObject.height
       GameObject.id].
  rewrite Hw, Hh. unfold CONFIG.CANVAS.WIDTH, CONFIG.CANVAS.HEIGHT.
  cbn [sub].
  destruct (clamp_range x0 0 (1094 - w)) as (cx & -> & Hx0 & Hx1); [lra|].
  destruct (clamp_range y0 0 (1112 - h)) as (cy & -> & Hy0 & Hy1); [lra|].
  rewrite !clamp_inside by assumption. reflexivity.
Qed.

Lemma setPosition_idempotent_witness :
  let o := GameObject.mk (Fin 465) (Fin 210) (Fin 16) (Fin 32) "obj_a" in
  let o' := GameObject.setPosition o (Fin (-7)) (Fin 2000) in
  GameObject.setPosition o' (GameObject.x o') (GameObject.y o') = o'.
Proof.
  intro o.
  apply (setPosition_idempotent o 16 32 (-7) 2000); try reflexivity; lra.
Defined.

(** [moveBy] is the plain translation whenever the translated rectangle
    fits the world. *)
Theorem moveBy_exact_inside (o : GameObject.t) (px py w h dx dy : Q) :
  GameObject.x o = Fin px -> GameObject.y o = Fin py ->
  GameObject.width o = Fin w -> GameObject.height o = Fin h ->
  0 <= px + dx -> px + dx + w <= 1094 ->
  0 <= py + dy -> py + dy + h <= 1112 ->
  GameObject.moveBy o (Fin dx) (Fin dy) =
    {| GameObject.x := Fin (px + dx); GameObject.y := Fin (py + dy);
       GameObject.width := Fin w; GameObject.height := Fin h;
       GameObject.id := GameObject.id o |}.
Proof.
  intros Hx Hy Hw Hh H1 H2 H3 H4.
  unfold GameObject.moveBy, GameObject.setPosition.
  rewrite Hx, Hy, Hw, Hh.
  unfold CONFIG.CANVAS.WIDTH, CONFIG.CANVAS.HEIGHT. cbn [add sub].
  rewrite !clamp_inside by lra. reflexivity.
Qed.

Lemma moveBy_exact_inside_witness :
  let o := GameObject.mk (Fin 465) (Fin 210) (Fin 16) (Fin 32) "obj_a" in
  GameObject.moveBy o (Fin (-5)) (Fin 7) =
    {| GameObject.x := Fin (465 + -5); GameObject.y := Fin (210 + 7);
       GameObject.width := Fin 16; GameObject.height := Fin 32;
       GameObject.id := GameObject.id o |}.
Proof.
  intro o.
  apply (moveBy_exact_inside o 465 210 16 32 (-5) 7); try reflexivity; lra.
Defined.

(** X4. An entity wider than the world is never put inside the world by
    [setPosition], whatever position is asked for, NaN included: for
    every abscissa that is a number the entity is put at the negative
    abscissa [1094 - width]. *)
Theorem setPosition_oversize (o : GameObject.t) (w : Q) (x0 y0 : num) :
  GameObject.width o = Fin w ->
  1094 < w ->
  let o' := GameObject.setPosition o x0 y0 in
  withinWorld (GameObject.getBounds o') = false /\
  (x0 <> NaN -> GameObject.x o' = Fin (1094 - w)).
Proof.
  intros Hw Hbig o'. subst o'.
  unfold GameObject.setPosition, withinWorld, GameObject.getBounds.
  cbn [GameObject.x GameObject.y GameObject.width GameObject.height
       Rect.x Rect.y Rect.width Rect.height].
  rewrite Hw. unfold CONFIG.CANVAS.WIDTH. cbn [sub].
  destruct x0 as [|x0].
  - split; [reflexivity|]. intro H. contradiction.
  - rewrite (clamp_inverted x0 0 (1094 - w)) by lra.
    split; [|reflexivity].
    unfold ge at 1. unfold le at 1.
    replace (Qle_bool 0 (1094 - w)) with false
      by (symmetry; apply Qle_bool_false_iff; lra).
    reflexivity.
Qed.

Lemma setPosition_oversize_witness :
  let o := GameObject.mk (Fin 0) (Fin 0) (Fin 1200) (Fin 300) "obj_a" in
  let o' := GameObject.setPosition o (Fin 0) (Fin 950) in
  withinWorld (GameObject.getBounds o') = false /\
  GameObject.x o' = Fin (1094 - 1200).
Proof.
  intros o o'.
  destruct (setPosition_oversize o 1200 (Fin 0) (Fin 950)) as [H1 H2];
    [reflexivity|lra|].
  split; [exact H1|]. apply H2. discriminate.
Defined.

Lemma Qlt_bool_compat (a a' b b' : Q) :
  a == a' -> b == b' -> Qlt_bool a b = Qlt_bool a' b'.
Proof.
  intros Ha Hb. apply eq_true_iff_eq. rewrite !Qlt_bool_iff.
  rewrite Ha, Hb. reflexivity.
Qed.

(** X5. The distance test is symmetric: whether [a] is closer to [b] than
    [t] does not depend on which of the two computes the distance. *)
Theorem distanceTo_sym (a b : GameObject.t) (t : num) :
  root_lt (GameObject.distanceTo a b) t = root_lt (GameObject.distanceTo b a) t.
Proof.
  unfold GameObject.distanceTo, ValidationUtils.calculateDistance.
  destruct (GameObject.getCenter a) as [ax ay].
  destruct (GameObject.getCenter b) as [bx by_].
  cbn [Point.x Point.y].
  destruct ax as [|ax], ay as [|ay], bx as [|bx], by_ as [|by_];
    try reflexivity.
  cbn [sub mul add JS.sqrt].
  assert (Heq : (ax - bx) * (ax - bx) + (ay - by_) * (ay - by_) ==
                (bx - ax) * (bx - ax) + (by_ - ay) * (by_ - ay)) by ring.
  rewrite (Qlt_bool_compat _ _ 0 0 Heq (Qeq_refl 0)).
  destruct (Qlt_bool _ 0); [reflexivity|].
  destruct t as [|t]; [reflexivity|].
  cbn [root_lt]. f_equal.
  apply Qlt_bool_compat; [exact Heq|reflexivity].
Qed.

(** ** Further properties of the player *)

(** The two outcomes of [move] for a player with finite fields. *)
Lemma move_cases (p : Player.t) (px py w h dx dy : Q) (obstacles : list Rect.t) :
  playerBounds p = Rect.mk (Fin px) (Fin py) (Fin w) (Fin h) ->
  let r := Player.move p (Fin dx) (Fin dy) obstacles in
  Player.direction (fst r) = Player.direction p /\
  Player.speed (fst r) = Player.speed p /\
  Player.lastPosition (fst r) = Point.mk (Fin px) (Fin py) /\
  ((snd r = true /\
    playerBounds (fst r) =
      Rect.mk (Fin (px + dx)) (Fin (py + dy)) (Fin w) (Fin h) /\
    withinWorld (playerBounds (fst r)) = true /\
    clearOf (playerBounds (fst r)) obstacles) \/
   (snd r = false /\ Player.obj (fst r) = Player.obj p)).
Proof.
  intros Hb r. subst r.
  destruct p as [[qx qy qw qh pid] sp dir lastp].
  unfold playerBounds, GameObject.getBounds in Hb. simpl in Hb.
  injection Hb as -> -> -> ->.
  unfold Player.move.
  cbn [Player.obj Player.x Player.y Player.width Player.height
       GameObject.x GameObject.y GameObject.width GameObject.height
       GameObject.id Player.speed Player.direction Player.lastPosition add].
  match goal with |- context [Player.canMoveTo ?q ?a ?b ?c] =>
    destruct (Player.canMoveTo q a b c) eqn:E end.
  - apply canMoveTo_true in E.
    destruct E as (E1 & E2 & E3 & E4 & E5).
    unfold Player.width, Player.height in E3, E4, E5.
    cbn [Player.obj GameObject.width GameObject.height] in E3, E4, E5.
    unfold gt, lt, add, CONFIG.CANVAS.WIDTH, CONFIG.CANVAS.HEIGHT in E1, E2, E3, E4.
    qprop.
    unfold CONFIG.CANVAS.WIDTH, CONFIG.CANVAS.HEIGHT. cbn [sub fst snd].
    unfold playerBounds, GameObject.getBounds.
    cbn [Player.obj Player.direction Player.speed Player.lastPosition
         GameObject.x GameObject.y GameObject.width GameObject.height].
    rewrite !clamp_inside by lra.
    repeat split. left. repeat split.
    + unfold withinWorld, ge, le, add, CONFIG.CANVAS.WIDTH, CONFIG.CANVAS.HEIGHT.
      cbn [Rect.x Rect.y Rect.width Rect.height]. qprop; lra.
    + apply clearOf_existsb. exact E5.
  - cbn [fst snd Player.direction Player.speed Player.lastPosition Player.obj].
    repeat split. right. split; reflexivity.
Qed.

(** X6. After an attempt by the player of the game (16 by 32, inside the
    world) the player counts as moving exactly when the move was
    committed and the target it computed, [(x + dx, y + dy)], differs
    from where it stood, for every displacement, NaN included: a refused
    move is no movement, and neither is a committed one whose sums give
    the old coordinates back. *)
Theorem isMoving_after_move (p : Player.t) (dx dy : num)
    (obstacles : list Rect.t) :
  Player.width p = CONFIG.PLAYER.WIDTH ->
  Player.height p = CONFIG.PLAYER.HEIGHT ->
  withinWorld (playerBounds p) = true ->
  let r := Player.move p dx dy obstacles in
  Player.isMoving (fst r) =
    snd r && (strict_neq (add (Player.x p) dx) (Player.x p) ||
              strict_neq (add (Player.y p) dy) (Player.y p)).
Proof.
  intros _ _ Hin r.
  destruct (withinWorld_finite _ Hin) as (px & py & w & h & Hb & _).
  assert (Hxy : Player.x p = Fin px /\ Player.y p = Fin py).
  { unfold Player.x, Player.y, playerBounds, GameObject.getBounds in Hb |- *.
    injection Hb as -> -> _ _. split; reflexivity. }
  destruct Hxy as [Hx Hy]. rewrite Hx, Hy.
  destruct (move_outcomes p px py w h dx dy obstacles Hb)
    as (Hlast & [(Hs & Hb' & _) | (Hs & Ho)]); fold r in Hlast, Hs.
  - fold r in Hb'. unfold Player.isMoving. rewrite Hlast, Hs.
    unfold playerBounds, GameObject.getBounds in Hb'.
    injection Hb' as Hx' Hy' _ _.
    unfold Player.x, Player.y. rewrite Hx', Hy'. reflexivity.
  - fold r in Ho. unfold Player.isMoving, Player.x, Player.y in *.
    rewrite Hlast, Ho, Hs, Hx, Hy.
    cbn [Point.x Point.y strict_neq]. rewrite !Qeq_bool_refl. reflexivity.
Qed.

Lemma isMoving_after_move_witness :
  let p := Player.new "obj_p" in
  let r := Player.move p (Fin 2) (Fin 0) CONFIG.COLLISION_BOXES in
  Player.isMoving (fst r) =
    snd r && (strict_neq (add (Player.x p) (Fin 2)) (Player.x p) ||
              strict_neq (add (Player.y p) (Fin 0)) (Player.y p)).
Proof.
  intro p.
  apply (isMoving_after_move p (Fin 2) (Fin 0) CONFIG.COLLISION_BOXES);
    reflexivity.
Defined.

Lemma playerOk_new (fresh : string) : playerOk (Player.new fresh).
Proof.
  repeat split; try reflexivity.
  - apply clearOf_existsb. reflexivity.
  - right. left. reflexivity.
Qed.

Lemma setDirection_valid (p : Player.t) (d : string) :
  validDirection (Player.direction p) ->
  validDirection (Player.direction (Player.setDirection p d)).
Proof.
  intro Hv. unfold Player.setDirection. cbn [existsb].
  destruct (String.eqb_spec d "up"); [subst; left; reflexivity|].
  destruct (String.eqb_spec d "down"); [subst; right; left; reflexivity|].
  destruct (String.eqb_spec d "left");
    [subst; right; right; left; reflexivity|].
  destruct (String.eqb_spec d "right");
    [subst; right; right; right; left; reflexivity|].
  exact Hv.
Qed.

Lemma playerOk_step (p : Player.t) (op : PlayerOp) :
  playerOk p -> playerOk (applyPlayerOp p op).
Proof.
  intros (Hw & Hh & Hin & Hclear & Hdir).
  destruct op as [dx dy|d|s|]; cbn [applyPlayerOp].
  - destruct (withinWorld_finite _ Hin) as (px & py & w & h & Hb & _).
    destruct (move_cases p px py w h dx dy CONFIG.COLLISION_BOXES Hb)
      as (Hd & _ & _ & [(_ & Hb' & Hin' & Hcl') | (_ & Ho)]).
    + assert (Hwh : Player.width
                      (fst (Player.move p (Fin dx) (Fin dy)
                              CONFIG.COLLISION_BOXES)) = Player.width p /\
                    Player.height
                      (fst (Player.move p (Fin dx) (Fin dy)
                              CONFIG.COLLISION_BOXES)) = Player.height p).
      { unfold Player.width, Player.height, playerBounds, GameObject.getBounds
          in Hb, Hb' |- *.
        injection Hb as _ _ Hbw Hbh. injection Hb' as _ _ Hbw' Hbh'.
        rewrite Hbw, Hbh, Hbw', Hbh'. split; reflexivity. }
      destruct Hwh as [Hw' Hh'].
      unfold playerOk. rewrite Hd, Hw', Hh'.
      repeat split; assumption.
    + unfold playerOk, playerBounds, Player.width, Player.height in *.
      rewrite Ho, Hd. repeat split; assumption.
  - unfold playerOk, playerBounds, Player.width, Player.height in *.
    rewrite setDirection_obj.
    repeat split; try assumption. apply setDirection_valid. exact Hdir.
  - repeat split; assumption.
  - unfold playerOk, playerBounds, Player.reset, GameObject.getBounds.
    cbn [Player.obj Player.width Player.height Player.direction
         GameObject.x GameObject.y GameObject.width GameObject.height].
    rewrite Hw, Hh. repeat split.
    + apply clearOf_existsb. reflexivity.
    + right. left. reflexivity.
Qed.

(** X7. The player of the game, through every sequence of move attempts
    with finite displacements against the configured collision boxes,
    direction changes, speed changes and resets, stays inside the world,
    overlaps no collision box, keeps one of the four directions, and so
    never falls to the zero vector of [getDirectionVector]. *)
Theorem player_ops_invariant (fresh : string) (ops : list PlayerOp) :
  let p := fold_left applyPlayerOp ops (Player.new fresh) in
  withinWorld (playerBounds p) = true /\
  clearOf (playerBounds p) CONFIG.COLLISION_BOXES /\
  validDirection (Player.direction p) /\
  In (Player.getDirectionVector p) unitVectors.
Proof.
  intro p.
  assert (Hok : playerOk p).
  { subst p. generalize (playerOk_new fresh).
    generalize (Player.new fresh). induction ops as [|op ops IH]; intros q Hq.
    - exact Hq.
    - cbn [fold_left]. apply IH. apply playerOk_step. exact Hq. }
  destruct Hok as (_ & _ & Hin & Hclear & Hdir).
  repeat split; try assumption.
  unfold Player.getDirectionVector, unitVectors.
  destruct Hdir as [<-|[<-|[<-|[<-|[]]]]]; cbn; auto.
Qed.

(** X8. Saving a player and restoring it.  Restoring a player from its own
    saved state changes nothing.  Restoring another player [q] from the
    state of [p] gives [q] the position, direction, speed and last
    position of [p], provided the saved coordinates and speed are
    non-zero numbers and the saved direction is not empty; size and id
    stay those of [q]. *)
Theorem setState_getState (p q : Player.t) :
  Player.setState p (Player.getState p) = p /\
  (Player.truthy (Player.x p) = true ->
   Player.truthy (Player.y p) = true ->
   Player.truthy (Player.speed p) = true ->
   Player.nonEmpty (Player.direction p) = true ->
   let q' := Player.setState q (Player.getState p) in
   Player.x q' = Player.x p /\ Player.y q' = Player.y p /\
   Player.direction q' = Player.direction p /\
   Player.speed q' = Player.speed p /\
   Player.lastPosition q' = Player.lastPosition p /\
   Player.width q' = Player.width q /\ Player.height q' = Player.height q /\
   GameObject.id (Player.obj q') = GameObject.id (Player.obj q)).
Proof.
  split.
  - destruct p as [[px py pw ph pid] sp dir [lx ly]].
    unfold Player.setState, Player.getState.
    cbn [Player.st_x Player.st_y Player.st_direction Player.st_speed
         Player.st_lastPosition Player.x Player.y Player.width Player.height
         Player.obj Player.direction Player.speed Player.lastPosition
         GameObject.x GameObject.y GameObject.width GameObject.height
         GameObject.id Point.x Point.y].
    destruct (Player.truthy px), (Player.truthy py), (Player.truthy sp),
             (Player.nonEmpty dir); reflexivity.
  - intros Hx Hy Hs Hd q'. subst q'.
    unfold Player.setState, Player.getState.
    cbn [Player.st_x Player.st_y Player.st_direction Player.st_speed
         Player.st_lastPosition].
    rewrite Hx, Hy, Hs, Hd.
    destruct p as [[px py pw ph pid] sp dir [lx ly]].
    repeat split.
Qed.

Lemma setState_getState_witness :
  let p := scenarioA_player in
  let q := Player.new "obj_q" in
  let q' := Player.setState q (Player.getState p) in
  Player.x q' = Player.x p /\ Player.y q' = Player.y p /\
  Player.direction q' = Player.direction p /\
  Player.speed q' = Player.speed p /\
  Player.lastPosition q' = Player.lastPosition p /\
  Player.width q' = Player.width q /\ Player.height q' = Player.height q /\
  GameObject.id (Player.obj q') = GameObject.id (Player.obj q).
Proof.
  intros p q.
  apply (proj2 (setState_getState p q)); reflexivity.
Defined.

(** X9. A saved coordinate 0 is falsy and is not restored: the player
    restored from such a state keeps the abscissa it had.  The same
    holds for a saved speed 0. *)
Theorem setState_drops_zero (p q : Player.t) (z : Q) :
  z == 0 ->
  (Player.x p = Fin z ->
   Player.x (Player.setState q (Player.getState p)) = Player.x q) /\
  (Player.y p = Fin z ->
   Player.y (Player.setState q (Player.getState p)) = Player.y q) /\
  (Player.speed p = Fin z ->
   Player.speed (Player.setState q (Player.getState p)) = Player.speed q).
Proof.
  intro Hz. apply Qeq_bool_iff in Hz.
  unfold Player.setState, Player.getState.
  cbn [Player.st_x Player.st_y Player.st_direction Player.st_speed
       Player.st_lastPosition].
  repeat split; intros ->; unfold Player.truthy; rewrite Hz; reflexivity.
Qed.

Lemma setState_drops_zero_witness :
  let p := Player.setSpeed (Player.new "obj_p") (Fin 0) in
  let q := Player.new "obj_q" in
  Player.speed (Player.setState q (Player.getState p)) = Player.speed q.
Proof.
  intros p q.
  apply (proj2 (proj2 (setState_drops_zero p q 0 (Qeq_refl 0)))).
  reflexivity.
Defined.

(** ** Further properties of the collision system *)

(** X10. When the entity overlaps nothing where it stands, the position
    [getMovementResponse] proposes overlaps a box in exactly one
    situation: the target is blocked while each axis alone is free.  The
    response then carries the blocked target itself as the adjusted
    position. *)
Theorem adjusted_position_collides_iff (cs : CollisionSystem.t)
    (e : GameObject.t) (dx dy : num) (boxes : option (list Rect.t)) :
  CollisionSystem.checkCollision cs (GameObject.getBounds e) boxes = false ->
  let r := CollisionSystem.getMovementResponse cs e dx dy boxes in
  CollisionSystem.checkCollision cs
    (Rect.mk (CollisionSystem.adjustedX r) (CollisionSystem.adjustedY r)
             (GameObject.width e) (GameObject.height e)) boxes = true <->
  CollisionSystem.canMove r = false /\
  CollisionSystem.canMoveX r = Some true /\
  CollisionSystem.canMoveY r = Some true.
Proof.
  intros Hfree r. subst r.
  unfold CollisionSystem.getMovementResponse, CollisionSystem.wouldCollide.
  unfold GameObject.getBounds in *.
  cbn [Rect.x Rect.y Rect.width Rect.height].
  destruct (CollisionSystem.checkCollision cs
              (Rect.mk (add (GameObject.x e) dx) (add (GameObject.y e) dy)
                       (GameObject.width e) (GameObject.height e)) boxes) eqn:Exy;
    cbn [negb CollisionSystem.canMove CollisionSystem.adjustedX
         CollisionSystem.adjustedY CollisionSystem.canMoveX
         CollisionSystem.canMoveY].
  - destruct (CollisionSystem.checkCollision cs
                (Rect.mk (add (GameObject.x e) dx) (GameObject.y e)
                         (GameObject.width e) (GameObject.height e)) boxes) eqn:Ex,
             (CollisionSystem.checkCollision cs
                (Rect.mk (GameObject.x e) (add (GameObject.y e) dy)
                         (GameObject.width e) (GameObject.height e)) boxes) eqn:Ey;
      cbn [negb]; rewrite ?Hfree, ?Ex, ?Ey, ?Exy;
      split; try discriminate; try (intros (_ & H1 & H2); discriminate);
      intros; repeat split.
  - rewrite Exy. split; [discriminate|]. intros (H & _). discriminate H.
Qed.

Lemma adjusted_position_collides_iff_witness :
  let e := Player.obj scenarioC_player in
  let boxes := Some [CONFIG.box 118 134 10 10] in
  let r := CollisionSystem.getMovementResponse CollisionSystem.new e
             (Fin 5) (Fin 5) boxes in
  CollisionSystem.checkCollision CollisionSystem.new
    (Rect.mk (CollisionSystem.adjustedX r) (CollisionSystem.adjustedY r)
             (GameObject.width e) (GameObject.height e)) boxes = true.
Proof.
  intros e boxes r.
  apply (adjusted_position_collides_iff CollisionSystem.new e (Fin 5) (Fin 5)
           boxes); [reflexivity|].
  repeat split.
Defined.

(** [getIntersectingBoxes] lists, in their order, exactly the boxes that
    overlap the rectangle; the list is empty exactly when
    [checkCollision] answers [false]. *)
Theorem getIntersectingBoxes_spec (cs : CollisionSystem.t) (bounds : Rect.t)
    (boxes : option (list Rect.t)) :
  (forall b,
     In b (CollisionSystem.getIntersectingBoxes cs bounds boxes) <->
     In b (CollisionSystem.boxesOf cs boxes) /\
     ValidationUtils.isColliding bounds b = true) /\
  (CollisionSystem.getIntersectingBoxes cs bounds boxes = [] <->
   CollisionSystem.checkCollision cs bounds boxes = false).
Proof.
  unfold CollisionSystem.getIntersectingBoxes, CollisionSystem.checkCollision.
  split; [intro b; apply filter_In|].
  induction (CollisionSystem.boxesOf cs boxes) as [|b l IH]; cbn [filter existsb].
  - split; reflexivity.
  - destruct (ValidationUtils.isColliding bounds b); cbn [orb].
    + split; discriminate.
    + exact IH.
Qed.

(** X11. Player and collision system agree inside the world: for a target
    rectangle inside the world, [canMoveTo] accepts it exactly when
    [wouldCollide] finds no overlap.  A target that leaves the world is
    refused by [canMoveTo]; [wouldCollide] has no such test. *)
Theorem canMoveTo_wouldCollide (cs : CollisionSystem.t) (p : Player.t)
    (x y : num) (boxes : list Rect.t) :
  let target := Rect.mk x y (Player.width p) (Player.height p) in
  (withinWorld target = true ->
   Player.canMoveTo p x y boxes =
   negb (CollisionSystem.wouldCollide cs (Player.x p) (Player.y p) x y
           (Player.width p) (Player.height p) (Some boxes))) /\
  (Player.canMoveTo p x y boxes = true ->
   CollisionSystem.wouldCollide cs (Player.x p) (Player.y p) x y
     (Player.width p) (Player.height p) (Some boxes) = false).
Proof.
  intro target. split.
  - intro Hin. destruct (withinWorld_finite _ Hin)
      as (qx & qy & w & h & Hb & Hx & Hy & Hw & Hh).
    subst target. injection Hb as -> -> Hpw Hph.
    unfold Player.canMoveTo, CollisionSystem.wouldCollide,
      CollisionSystem.checkCollision, CollisionSystem.boxesOf.
    rewrite Hpw, Hph.
    unfold gt. unfold lt, add, CONFIG.CANVAS.WIDTH, CONFIG.CANVAS.HEIGHT.
    replace (Qlt_bool qx 0) with false
      by (symmetry; apply Qlt_bool_false_iff; lra).
    replace (Qlt_bool qy 0) with false
      by (symmetry; apply Qlt_bool_false_iff; lra).
    replace (Qlt_bool 1094 (qx + w)) with false
      by (symmetry; apply Qlt_bool_false_iff; lra).
    replace (Qlt_bool 1112 (qy + h)) with false
      by (symmetry; apply Qlt_bool_false_iff; lra).
    cbn [orb]. reflexivity.
  - intro H. apply canMoveTo_true in H.
    destruct H as (_ & _ & _ & _ & H). exact H.
Qed.

Lemma canMoveTo_wouldCollide_witness :
  let p := scenarioA_player in
  Player.canMoveTo p (Fin 500) (Fin 30) CONFIG.COLLISION_BOXES =
  negb (CollisionSystem.wouldCollide CollisionSystem.new
          (Player.x p) (Player.y p) (Fin 500) (Fin 30)
          (Player.width p) (Player.height p) (Some CONFIG.COLLISION_BOXES)).
Proof.
  intro p.
  apply (proj1 (canMoveTo_wouldCollide CollisionSystem.new p (Fin 500) (Fin 30)
                  CONFIG.COLLISION_BOXES)).
  reflexivity.
Defined.

(** X13. Adding a box and removing the last index gives the boxes back; an
    index outside the list removes nothing; an index inside removes
    exactly that element. *)
Theorem removeCollisionBox_spec (cs : CollisionSystem.t) (b : Rect.t) (i : Z) :
  let n := Z.of_nat (List.length (CollisionSystem.collisionBoxes cs)) in
  CollisionSystem.removeCollisionBox
    (CollisionSystem.addCollisionBox cs (Some b)) n = cs /\
  ((i < 0 \/ n <= i)%Z -> CollisionSystem.removeCollisionBox cs i = cs) /\
  ((0 <= i < n)%Z ->
   forall k : nat,
     nth_error (CollisionSystem.collisionBoxes
                  (CollisionSystem.removeCollisionBox cs i)) k =
     nth_error (CollisionSystem.collisionBoxes cs)
               (if (k <? Z.to_nat i)%nat then k else S k)).
Proof.
  intro n. destruct cs as [l]. subst n.
  cbn [CollisionSystem.collisionBoxes]. repeat split.
  - unfold CollisionSystem.removeCollisionBox, CollisionSystem.addCollisionBox.
    cbn [CollisionSystem.collisionBoxes].
    rewrite length_app. cbn [List.length].
    replace ((0 <=? Z.of_nat (List.length l)) &&
             (Z.of_nat (List.length l) <? Z.of_nat (List.length l + 1)))%Z
      with true
      by (symmetry; apply andb_true_iff; split;
          [apply Z.leb_le|apply Z.ltb_lt]; lia).
    rewrite Nat2Z.id.
    rewrite firstn_app, Nat.sub_diag, firstn_all. cbn [firstn].
    rewrite app_nil_r.
    rewrite skipn_all2 by (rewrite length_app; cbn [List.length]; lia).
    rewrite app_nil_r. reflexivity.
  - intro Hout. unfold CollisionSystem.removeCollisionBox.
    cbn [CollisionSystem.collisionBoxes].
    replace ((0 <=? i) && (i <? Z.of_nat (List.length l)))%Z with false;
      [reflexivity|].
    symmetry. apply andb_false_iff.
    destruct Hout; [left; apply Z.leb_gt|right; apply Z.ltb_ge]; lia.
  - intros Hin k. unfold CollisionSystem.removeCollisionBox.
    cbn [CollisionSystem.collisionBoxes].
    replace ((0 <=? i) && (i <? Z.of_nat (List.length l)))%Z with true
      by (symmetry; apply andb_true_iff; split;
          [apply Z.leb_le|apply Z.ltb_lt]; lia).
    cbn [CollisionSystem.collisionBoxes].
    assert (Hi : (Z.to_nat i < List.length l)%nat) by lia.
    set (j := Z.to_nat i) in *.
    destruct (k <? j)%nat eqn:Ek.
    + apply Nat.ltb_lt in Ek.
      rewrite nth_error_app1 by (rewrite length_firstn; lia).
      rewrite nth_error_firstn.
      replace (k <? j)%nat with true by (symmetry; apply Nat.ltb_lt; exact Ek).
      reflexivity.
    + apply Nat.ltb_ge in Ek.
      rewrite nth_error_app2 by (rewrite length_firstn; lia).
      rewrite length_firstn, nth_error_skipn.
      f_equal. lia.
Qed.

Lemma removeCollisionBox_spec_witness :
  let cs := CollisionSystem.mk CONFIG.COLLISION_BOXES in
  nth_error (CollisionSystem.collisionBoxes
               (CollisionSystem.removeCollisionBox cs 3)) 5 =
  nth_error (CollisionSystem.collisionBoxes cs)
            (if (5 <? Z.to_nat 3)%nat then 5%nat else 6%nat).
Proof.
  intro cs.
  apply (proj2 (proj2 (removeCollisionBox_spec cs (CONFIG.box 0 0 1 1) 3))).
  cbn. lia.
Defined.

(** ** Further properties of the proximity state machine *)

Lemma setBarked_same (d : Dog.t) :
  Dog.setBarked d (Dog.barked d) = d.
Proof. destruct d; reflexivity. Qed.

(** One frame with a present player, on a dog whose latch agrees with
    its state. *)
Lemma updateStep_cases (d : Dog.t) (tk : Tick) (p : GameObject.t) :
  latchAgrees d ->
  tk_player tk = Some p ->
  let r := updateStep d tk in
  Dog.obj (fst r) = Dog.obj d /\ Dog.name (fst r) = Dog.name d /\
  latchAgrees (fst r) /\
  Dog.state (fst r) =
    (if Dog.isPlayerInRange d p then Dog.jump else Dog.sit) /\
  (Dog.state (fst r) = Dog.state d -> fst r = d /\ snd r = []) /\
  (Dog.state d = Dog.sit -> Dog.state (fst r) = Dog.jump ->
   snd r = enterEffects d tk /\ Dog.stateChangeTime (fst r) = tk_now tk) /\
  (Dog.state d = Dog.jump -> Dog.state (fst r) = Dog.sit ->
   snd r = exitEffects d tk /\ Dog.stateChangeTime (fst r) = tk_now tk).
Proof.
  intros Hinv Hp r. subst r. unfold latchAgrees in *.
  unfold updateStep. rewrite Hp.
  destruct (Dog.isPlayerInRange d p) eqn:Er.
  - rewrite (update_in_range _ _ _ _ _ Er).
    unfold Dog.activate, Dog.setState, enterEffects, exitEffects.
    destruct (Dog.isMe d) eqn:Em, (Dog.state d) eqn:Es, (Dog.barked d) eqn:Eb;
      cbn [Dog.State_eqb negb andb fst snd Dog.setBarked Dog.obj Dog.name
           Dog.state Dog.barked Dog.stateChangeTime];
      rewrite ?Es, ?Eb;
      try (exfalso; intuition congruence);
      repeat split; intros; try discriminate; try congruence.
  - rewrite (update_out_of_range _ _ _ _ _ Er).
    unfold Dog.deactivate, Dog.setState, enterEffects, exitEffects.
    destruct (Dog.isMe d) eqn:Em, (Dog.state d) eqn:Es, (Dog.barked d) eqn:Eb;
      cbn [Dog.State_eqb negb andb fst snd Dog.setBarked Dog.obj Dog.name
           Dog.state Dog.barked Dog.stateChangeTime];
      rewrite ?Es, ?Eb;
      try (exfalso; intuition congruence);
      repeat split; intros; try discriminate; try congruence;
      try (rewrite <- Eb; apply setBarked_same).
Qed.

(** X14. The state follows the player: through any run of frames with a
    present player, from a dog whose latch agrees with its state, the
    dog jumps after a frame exactly when the player of that frame is
    inside the radius. *)
Theorem runUpdates_tracks_range (d : Dog.t) (ticks : list Tick) :
  latchAgrees d ->
  Forall (fun tk => tk_player tk <> None) ticks ->
  map (fun r => Dog.state (fst r)) (runUpdates d ticks) =
  map (fun tk => if tickInRange d tk then Dog.jump else Dog.sit) ticks.
Proof.
  intros Hinv Hall. revert d Hinv.
  induction Hall as [|tk rest Hp _ IH]; intros d Hinv; [reflexivity|].
  destruct (tk_player tk) as [p|] eqn:Ep; [|congruence].
  destruct (updateStep_cases d tk p Hinv Ep) as (Ho & Hn & Hinv' & Hs & _).
  cbn [runUpdates map]. rewrite (IH _ Hinv'). f_equal.
  - unfold tickInRange. rewrite Ep. exact Hs.
  - apply map_ext. intro tk'. unfold tickInRange.
    destruct (tk_player tk'); [|reflexivity].
    rewrite (isPlayerInRange_ext d _ _ Ho Hn). reflexivity.
Qed.

Lemma runUpdates_tracks_range_witness :
  map (fun r => Dog.state (fst r)) (runUpdates roti nearTicks) =
  map (fun tk => if tickInRange roti tk then Dog.jump else Dog.sit) nearTicks.
Proof.
  apply (runUpdates_tracks_range roti nearTicks).
  - split; discriminate.
  - repeat constructor; discriminate.
Defined.

(** X15. Edge triggering: a frame that leaves the state as it was leaves the
    whole dog as it was and touches no audio element; a frame that
    enters triggers the enter effects and stamps the time; a frame that
    leaves triggers the exit effects and stamps the time. *)
Theorem update_edge_triggered (d : Dog.t) (tk : Tick) (p : GameObject.t) :
  latchAgrees d ->
  tk_player tk = Some p ->
  let r := updateStep d tk in
  (Dog.state (fst r) = Dog.state d -> fst r = d /\ snd r = []) /\
  (Dog.state d = Dog.sit -> Dog.state (fst r) = Dog.jump ->
   snd r = enterEffects d tk /\ Dog.stateChangeTime (fst r) = tk_now tk) /\
  (Dog.state d = Dog.jump -> Dog.state (fst r) = Dog.sit ->
   snd r = exitEffects d tk /\ Dog.stateChangeTime (fst r) = tk_now tk).
Proof.
  intros Hinv Hp r.
  destruct (updateStep_cases d tk p Hinv Hp) as (_ & _ & _ & _ & H).
  exact H.
Qed.

Lemma update_edge_triggered_witness :
  let tk := mkTick (Some nanPlayer) false false 2000 in
  let r := updateStep roti_jumping tk in
  (Dog.state (fst r) = Dog.state roti_jumping ->
   fst r = roti_jumping /\ snd r = []) /\
  (Dog.state roti_jumping = Dog.sit -> Dog.state (fst r) = Dog.jump ->
   snd r = enterEffects roti_jumping tk /\
   Dog.stateChangeTime (fst r) = tk_now tk) /\
  (Dog.state roti_jumping = Dog.jump -> Dog.state (fst r) = Dog.sit ->
   snd r = exitEffects roti_jumping tk /\
   Dog.stateChangeTime (fst r) = tk_now tk).
Proof.
  intro tk.
  apply (update_edge_triggered roti_jumping tk nanPlayer).
  - split; reflexivity.
  - reflexivity.
Defined.




(** X17. With a clock that has not gone back since the last change of state
    the animation progress is a number in [0, 1], and it is 1 once the
    duration has passed. *)
Theorem getAnimationProgress_monotone_clock (d : Dog.t) (now : Z) :
  (0 < Dog.animationDuration d)%Z ->
  (Dog.stateChangeTime d <= now)%Z ->
  ge (Dog.getAnimationProgress d now) (Fin 0) = true /\
  le (Dog.getAnimationProgress d now) (Fin 1) = true /\
  ((Dog.stateChangeTime d + Dog.animationDuration d <= now)%Z ->
   exists q, Dog.getAnimationProgress d now = Fin q /\ q == 1).
Proof.
  intros Hd Hnow.
  destruct (getAnimationProgress_range d now Hd Hnow) as [H0 H1].
  split; [exact H0|]. split; [exact H1|].
  intro Hdone. unfold Dog.getAnimationProgress, div.
  destruct (Qeq_bool (inject_Z (Dog.animationDuration d)) 0) eqn:E.
  - apply Qeq_bool_iff in E. unfold Qeq, inject_Z in E. simpl in E. lia.
  - assert (Hge : 1 <= inject_Z (now - Dog.stateChangeTime d) /
                       inject_Z (Dog.animationDuration d)).
    { apply Qle_shift_div_l.
      - change 0 with (inject_Z 0). rewrite <- Zlt_Qlt. exact Hd.
      - rewrite Qmult_1_l. rewrite <- Zle_Qle. lia. }
    unfold JS.min.
    match goal with |- context [Qlt_bool ?a ?b] =>
      destruct (Qlt_bool a b) eqn:E1 end; qprop;
      eexists; (split; [reflexivity|]); lra.
Qed.

Lemma getAnimationProgress_monotone_clock_witness :
  ge (Dog.getAnimationProgress roti_jumping 1250) (Fin 0) = true /\
  le (Dog.getAnimationProgress roti_jumping 1250) (Fin 1) = true /\
  ((Dog.stateChangeTime roti_jumping + Dog.animationDuration roti_jumping
      <= 1250)%Z ->
   exists q, Dog.getAnimationProgress roti_jumping 1250 = Fin q /\ q == 1).
Proof.
  apply (getAnimationProgress_monotone_clock roti_jumping 1250);
    vm_compute; [reflexivity|discriminate].
Defined.

(** ** Further properties of the game controller *)

Lemma update_present (d : Dog.t) (p : GameObject.t) (sa bg : bool) (now : Z) :
  Dog.update d (Some p) sa bg now =
  Ok (updateStep d (mkTick (Some p) sa bg now)).
Proof.
  unfold updateStep, Dog.update. cbn [tk_player tk_special tk_bg tk_now].
  destruct (root_lt _ _); reflexivity.
Qed.

(** X18. After [updateDogs], on dogs whose latches agree with their states,
    every dog jumps exactly when the player is in its range; so the dog
    that [getNearbyDog] answers, the one the talk prompt is shown for,
    is a jumping dog. *)
Theorem updateDogs_nearby_dog_jumps (dogs : list Dog.t) (player : GameObject.t)
    (happybdayAudio bgAudio : bool) (now : Z) :
  Forall latchAgrees dogs ->
  exists dogs' fx,
    Game.updateDogs dogs player happybdayAudio bgAudio now = Ok (dogs', fx) /\
    List.length dogs' = List.length dogs /\
    Forall (fun d' =>
              Dog.state d' =
              if Dog.isPlayerInRange d' player then Dog.jump else Dog.sit)
           dogs' /\
    forall d', Game.getNearbyDog dogs' player = Some d' ->
               Dog.state d' = Dog.jump.
Proof.
  intro Hall.
  assert (H : exists dogs' fx,
    Game.updateDogs dogs player happybdayAudio bgAudio now = Ok (dogs', fx) /\
    List.length dogs' = List.length dogs /\
    Forall (fun d' =>
              Dog.state d' =
              if Dog.isPlayerInRange d' player then Dog.jump else Dog.sit)
           dogs').
  { induction Hall as [|d rest Hd _ (rest' & fxs & Hrun & Hlen & Hst)].
    - exists [], []. repeat split. constructor.
    - cbn [Game.updateDogs]. rewrite !update_present.
      set (tk := if String.eqb (Dog.name d) "Me"
                 then mkTick (Some player) happybdayAudio bgAudio now
                 else mkTick (Some player) false false now).
      assert (Hr : (if String.eqb (Dog.name d) "Me"
                    then Ok (updateStep d
                               (mkTick (Some player) happybdayAudio bgAudio now))
                    else Ok (updateStep d
                               (mkTick (Some player) false false now)))
                   = Ok (updateStep d tk)).
      { subst tk. destruct (String.eqb (Dog.name d) "Me"); reflexivity. }
      rewrite Hr, Hrun.
      assert (Hp : tk_player tk = Some player).
      { subst tk. destruct (String.eqb (Dog.name d) "Me"); reflexivity. }
      destruct (updateStep_cases d tk player Hd Hp) as (Ho & Hn & _ & Hs & _).
      destruct (updateStep d tk) as [d' fx] eqn:Eu. cbn [fst] in *.
      exists (d' :: rest'), (fx ++ fxs). repeat split.
      + cbn [List.length]. rewrite Hlen. reflexivity.
      + constructor; [|exact Hst].
        rewrite (isPlayerInRange_ext d d' player Ho Hn). exact Hs. }
  destruct H as (dogs' & fx & Hrun & Hlen & Hst).
  exists dogs', fx. repeat split; try assumption.
  intros d' Hfind. unfold Game.getNearbyDog in Hfind.
  apply find_some in Hfind. destruct Hfind as [Hin Hr].
  rewrite Forall_forall in Hst. rewrite (Hst d' Hin), Hr. reflexivity.
Qed.

Lemma updateDogs_nearby_dog_jumps_witness :
  exists dogs' fx,
    Game.updateDogs [roti] nearPlayer true true 1000 = Ok (dogs', fx) /\
    List.length dogs' = List.length [roti] /\
    Forall (fun d' =>
              Dog.state d' =
              if Dog.isPlayerInRange d' nearPlayer then Dog.jump else Dog.sit)
           dogs' /\
    forall d', Game.getNearbyDog dogs' nearPlayer = Some d' ->
               Dog.state d' = Dog.jump.
Proof.
  apply (updateDogs_nearby_dog_jumps [roti] nearPlayer true true 1000).
  repeat constructor; discriminate.
Defined.

(** X19. The keys decide the movement: each component is -1, 0 or 1, the
    direction is absent exactly when both components are 0, and a
    present direction is one of the four and points the way its axis
    moves. *)
Theorem getMovementInput_spec (im : InputManager.t) :
  let m := InputManager.getMovementInput im in
  In (Game.mdx m) [Fin (-1); Fin 0; Fin 1] /\
  In (Game.mdy m) [Fin (-1); Fin 0; Fin 1] /\
  (Game.mdirection m = None <->
   Game.mdx m = Fin 0 /\ Game.mdy m = Fin 0) /\
  (Game.mdirection m = Some "up"%string -> Game.mdy m = Fin (-1)) /\
  (Game.mdirection m = Some "down"%string -> Game.mdy m = Fin 1) /\
  (Game.mdirection m = Some "left"%string ->
   Game.mdx m = Fin (-1) /\ Game.mdy m = Fin 0) /\
  (Game.mdirection m = Some "right"%string ->
   Game.mdx m = Fin 1 /\ Game.mdy m = Fin 0) /\
  (forall d, Game.mdirection m = Some d -> validDirection d).
Proof.
  intro m. subst m. unfold InputManager.getMovementInput, validDirection.
  destruct (InputManager.isKeyPressed im "ArrowLeft" ||
            InputManager.isKeyPressed im "a"),
           (InputManager.isKeyPressed im "ArrowRight" ||
            InputManager.isKeyPressed im "d"),
           (InputManager.isKeyPressed im "ArrowUp" ||
            InputManager.isKeyPressed im "w"),
           (InputManager.isKeyPressed im "ArrowDown" ||
            InputManager.isKeyPressed im "s");
    cbn [Game.mdx Game.mdy Game.mdirection In];
    repeat split; intros;
    try discriminate; try tauto;
    try match goal with
        | H : _ /\ _ |- _ => destruct H; discriminate
        | H : Some _ = Some _ |- _ => injection H as <-; tauto
        end.
Qed.

(** The movement of the keys is one of the nine pairs of -1, 0, 1. *)
Lemma getMovementInput_finite (im : InputManager.t) :
  exists a b,
    Game.mdx (InputManager.getMovementInput im) = Fin a /\
    Game.mdy (InputManager.getMovementInput im) = Fin b.
Proof.
  unfold InputManager.getMovementInput.
  destruct (InputManager.isKeyPressed im "ArrowLeft" ||
            InputManager.isKeyPressed im "a"),
           (InputManager.isKeyPressed im "ArrowRight" ||
            InputManager.isKeyPressed im "d"),
           (InputManager.isKeyPressed im "ArrowUp" ||
            InputManager.isKeyPressed im "w"),
           (InputManager.isKeyPressed im "ArrowDown" ||
            InputManager.isKeyPressed im "s");
    cbn [Game.mdx Game.mdy]; eexists; eexists; split; reflexivity.
Qed.

(** The player of the game after [updatePlayer]. *)
Lemma updatePlayer_player (g : Game.t) (m : Game.Movement) (now : Z) :
  Game.player (fst (Game.updatePlayer g m now)) =
  if strict_neq (Game.mdx m) (Fin 0) || strict_neq (Game.mdy m) (Fin 0) then
    let p1 := fst (Player.move (Game.player g)
                     (mul (Game.mdx m) (Player.speed (Game.player g)))
                     (mul (Game.mdy m) (Player.speed (Game.player g)))
                     CONFIG.COLLISION_BOXES) in
    match Game.mdirection m with
    | Some d => Player.setDirection p1 d
    | None => p1
    end
  else Game.player g.
Proof.
  unfold Game.updatePlayer.
  destruct (strict_neq (Game.mdx m) (Fin 0) || strict_neq (Game.mdy m) (Fin 0));
    [|reflexivity].
  destruct (Player.move _ _ _ _) as [p1 moved]. cbn [fst].
  match goal with |- context [if ?c then _ else _] => destruct c end;
    [|reflexivity].
  match goal with |- context [Game.playBumpSound ?g1 now] =>
    destruct (playBumpSound_spec g1 now) as (_ & _ & _ & Hp & _) end.
  cbv zeta in Hp. rewrite Hp. reflexivity.
Qed.

Lemma frameStep_ok (g : Game.t) (f : InputManager.t * Z) (s : Q) :
  playerOk (Game.player g) ->
  Player.speed (Game.player g) = Fin s ->
  playerOk (Game.player (frameStep g f)) /\
  Player.speed (Game.player (frameStep g f)) = Fin s.
Proof.
  intros Hok Hs. unfold frameStep. rewrite updatePlayer_player.
  destruct (strict_neq _ _ || strict_neq _ _); [|split; assumption].
  destruct (getMovementInput_finite (fst f)) as (a & b & Ha & Hb).
  rewrite Ha, Hb, Hs. cbn [mul]. cbv zeta.
  pose proof (playerOk_step (Game.player g) (PMove (a * s) (b * s)) Hok) as H1.
  cbn [applyPlayerOp] in H1.
  assert (Hsp : Player.speed
                  (fst (Player.move (Game.player g) (Fin (a * s)) (Fin (b * s))
                          CONFIG.COLLISION_BOXES)) = Fin s).
  { rewrite <- Hs. unfold Player.move.
    match goal with |- context [Player.canMoveTo ?q ?x ?y ?c] =>
      destruct (Player.canMoveTo q x y c) end; reflexivity. }
  destruct (Game.mdirection (InputManager.getMovementInput (fst f))) as [d|].
  - split.
    + apply (playerOk_step _ (PSetDirection d)). exact H1.
    + rewrite setDirection_speed. exact Hsp.
  - split; assumption.
Qed.

(** X20. Whatever keys are held on each frame, the frame update keeps the
    player of the game inside the world, off every configured collision
    box and facing one of the four directions. *)
Theorem frames_keep_player_ok (g : Game.t) (s : Q)
    (frames : list (InputManager.t * Z)) :
  playerOk (Game.player g) ->
  Player.speed (Game.player g) = Fin s ->
  let p := Game.player (fold_left frameStep frames g) in
  withinWorld (playerBounds p) = true /\
  clearOf (playerBounds p) CONFIG.COLLISION_BOXES /\
  validDirection (Player.direction p).
Proof.
  intros Hok Hs p.
  assert (H : playerOk p).
  { subst p. revert g Hok Hs.
    induction frames as [|f frames IH]; intros g Hok Hs; [exact Hok|].
    cbn [fold_left]. destruct (frameStep_ok g f s Hok Hs) as [Hok' Hs'].
    apply IH; assumption. }
  destruct H as (_ & _ & H1 & H2 & H3). repeat split; assumption.
Qed.

Lemma frames_keep_player_ok_witness :
  let g := Game.new "obj_player" in
  let frames :=
    [ (InputManager.mk ["ArrowUp"; "d"]%string, 1000%Z);
      (InputManager.mk ["ArrowUp"]%string, 1016%Z);
      (InputManager.mk [], 1033%Z) ] in
  let p := Game.player (fold_left frameStep frames g) in
  withinWorld (playerBounds p) = true /\
  clearOf (playerBounds p) CONFIG.COLLISION_BOXES /\
  validDirection (Player.direction p).
Proof.
  intros g frames.
  apply (frames_keep_player_ok g 2 frames).
  - apply playerOk_new.
  - reflexivity.
Defined.

(** The player turns even when it cannot move: after [updatePlayer] on
    a movement that is not zero and names one of the four directions,
    the player faces that direction, whether the move was committed or
    blocked. *)
Theorem updatePlayer_faces_direction (g : Game.t) (m : Game.Movement)
    (d : string) (now : Z) :
  strict_neq (Game.mdx m) (Fin 0) || strict_neq (Game.mdy m) (Fin 0) = true ->
  Game.mdirection m = Some d ->
  validDirection d ->
  Player.direction (Game.player (fst (Game.updatePlayer g m now))) = d.
Proof.
  intros Hnz Hd Hv. rewrite updatePlayer_player, Hnz, Hd. cbv zeta.
  unfold Player.setDirection.
  replace (existsb (String.eqb d) ["up"; "down"; "left"; "right"]%string)
    with true; [reflexivity|].
  symmetry. apply existsb_exists. exists d. split; [exact Hv|].
  apply String.eqb_refl.
Qed.

Lemma updatePlayer_faces_direction_witness :
  let g := Game.new "obj_player" in
  let m := Game.mkMovement (Fin 0) (Fin (-1)) (Some "up"%string) in
  Player.direction (Game.player (fst (Game.updatePlayer g m 1000))) = "up"%string.
Proof.
  intros g m.
  apply (updatePlayer_faces_direction g m "up" 1000).
  - reflexivity.
  - reflexivity.
  - left. reflexivity.
Defined.

(** X21. A key that is held down is reported once: the second key-down of a
    key without a key-up in between emits nothing and changes nothing;
    after the key-up the key is no longer pressed. *)
Theorem key_hold_reported_once (im : InputManager.t) (key : string) :
  let r1 := InputManager.handleKeyDown im key in
  let r2 := InputManager.handleKeyDown (fst r1) key in
  InputManager.isKeyPressed (fst r1) key = true /\
  r2 = (fst r1, []) /\
  InputManager.isKeyPressed (fst (InputManager.handleKeyUp (fst r1) key)) key
    = false.
Proof.
  intros r1 r2.
  assert (H1 : InputManager.isKeyPressed (fst r1) key = true).
  { subst r1. unfold InputManager.handleKeyDown.
    destruct (InputManager.isKeyPressed im key) eqn:E; cbn [negb fst].
    - exact E.
    - unfold InputManager.isKeyPressed. cbn [InputManager.keys].
      rewrite existsb_app. cbn [existsb].
      rewrite String.eqb_refl. rewrite orb_true_r. reflexivity. }
  split; [exact H1|]. split.
  - subst r2. unfold InputManager.handleKeyDown at 1. rewrite H1. reflexivity.
  - unfold InputManager.handleKeyUp, InputManager.isKeyPressed.
    cbn [fst InputManager.keys].
    destruct (existsb _ _) eqn:E; [|reflexivity].
    apply existsb_exists in E. destruct E as (k & Hk & Ek).
    apply filter_In in Hk. destruct Hk as [_ Hk].
    rewrite Ek in Hk. discriminate Hk.
Qed.

(** ** The frame loop *)

Lemma applyLoopOp_scheduled (g : GameLoop.t) (op : LoopOp) :
  (GameLoop.isRunning g = true -> (1 <= GameLoop.scheduled g)%nat) ->
  GameLoop.isRunning (applyLoopOp g op) = true ->
  (1 <= GameLoop.scheduled (applyLoopOp g op))%nat.
Proof.
  intro Hinv. destruct g as [run t n]. cbn [GameLoop.isRunning GameLoop.scheduled] in Hinv.
  destruct op as [now| | |ct|]; cbn [applyLoopOp].
  - unfold GameLoop.start. destruct run;
      cbn [GameLoop.isRunning GameLoop.scheduled]; intros; [auto|lia].
  - cbn. discriminate.
  - unfold GameLoop.resume. destruct run;
      cbn [GameLoop.isRunning GameLoop.scheduled negb fst]; intros; [auto|lia].
  - unfold GameLoop.gameLoop. cbn [GameLoop.isRunning GameLoop.scheduled].
    destruct n as [|n]; cbn [fst GameLoop.isRunning GameLoop.scheduled];
      [exact Hinv|].
    destruct run; cbn [negb fst GameLoop.isRunning GameLoop.scheduled];
      intros; [lia|discriminate].
  - cbn. discriminate.
Qed.

(** X22. A running loop never stalls: through every sequence of [start],
    [pause], [resume], [destroy] and frames run by the browser, whenever
    the game is running there is a frame callback scheduled. *)
Theorem running_loop_is_scheduled (ops : list LoopOp) :
  let g := fold_left applyLoopOp ops GameLoop.new in
  GameLoop.isRunning g = true -> (1 <= GameLoop.scheduled g)%nat.
Proof.
  intro g. subst g.
  assert (H0 : GameLoop.isRunning GameLoop.new = true ->
               (1 <= GameLoop.scheduled GameLoop.new)%nat) by discriminate.
  revert H0. generalize GameLoop.new.
  induction ops as [|op ops IH]; intros g Hg; [exact Hg|].
  cbn [fold_left]. apply IH. apply applyLoopOp_scheduled. exact Hg.
Qed.

Lemma runFrames_running (times : list Q) (g : GameLoop.t) :
  GameLoop.isRunning g = true ->
  (1 <= GameLoop.scheduled g)%nat ->
  GameLoop.isRunning (fst (runFrames g times)) = true /\
  GameLoop.scheduled (fst (runFrames g times)) = GameLoop.scheduled g /\
  List.length (snd (runFrames g times)) = List.length times.
Proof.
  revert g. induction times as [|ct rest IH]; intros g Hrun Hn.
  - repeat split. exact Hrun.
  - cbn [runFrames fst snd].
    destruct g as [run t n]. cbn [GameLoop.isRunning GameLoop.scheduled] in *.
    subst run. destruct n as [|n]; [lia|].
    unfold GameLoop.gameLoop at 1 2 3.
    cbn [GameLoop.isRunning GameLoop.scheduled negb fst snd].
    unfold GameLoop.gameLoop.
    cbn [GameLoop.isRunning GameLoop.scheduled negb fst snd].
    match goal with |- context [runFrames ?g1 rest] =>
      destruct (IH g1 eq_refl) as (H1 & H2 & H3) end;
      [cbn; lia|].
    rewrite H1, H2. cbn [GameLoop.scheduled app List.length].
    rewrite H3. repeat split.
Qed.

(** X23. [resume] after [pause] schedules a second loop when the callback of
    the first is still waiting: on a running game with a callback
    scheduled, [pause] followed by [resume] leaves one more callback
    scheduled, and from then on every callback the browser runs
    performs a frame and schedules its successor, so the number of
    scheduled callbacks never comes down again. *)
Theorem pause_resume_adds_a_loop (g : GameLoop.t) (times : list Q) :
  GameLoop.isRunning g = true ->
  (1 <= GameLoop.scheduled g)%nat ->
  let g1 := fst (GameLoop.resume (fst (GameLoop.pause g))) in
  GameLoop.isRunning g1 = true /\
  GameLoop.scheduled g1 = S (GameLoop.scheduled g) /\
  GameLoop.scheduled (fst (runFrames g1 times)) = S (GameLoop.scheduled g) /\
  List.length (snd (runFrames g1 times)) = List.length times.
Proof.
  intros Hrun Hn g1.
  assert (H1 : GameLoop.isRunning g1 = true) by reflexivity.
  assert (H2 : GameLoop.scheduled g1 = S (GameLoop.scheduled g)) by reflexivity.
  destruct (runFrames_running times g1 H1) as (_ & H3 & H4); [rewrite H2; lia|].
  rewrite H3, H2. repeat split. exact H4.
Qed.

Lemma pause_resume_adds_a_loop_witness :
  let g := GameLoop.start GameLoop.new 0 in
  let g1 := fst (GameLoop.resume (fst (GameLoop.pause g))) in
  GameLoop.isRunning g1 = true /\
  GameLoop.scheduled g1 = S (GameLoop.scheduled g) /\
  GameLoop.scheduled (fst (runFrames g1 [16; 16; 33; 33]))
    = S (GameLoop.scheduled g) /\
  List.length (snd (runFrames g1 [16; 16; 33; 33]))
    = List.length [16; 16; 33; 33].
Proof.
  intro g.
  apply (pause_resume_adds_a_loop g [16; 16; 33; 33]).
  - reflexivity.
  - cbn. lia.
Defined.

(** ** The mailbox *)

(** X24. [interact] succeeds exactly when the player is nearby and at least
    500 ms have passed since the last successful interaction; a refused
    interaction leaves the mailbox as it was; a successful one records
    its time, so that the next attempt less than 500 ms later is
    refused wherever the player stands. *)
Theorem interact_spec (mb : Mailbox.t) (player player2 : GameObject.t)
    (now now2 : Z) :
  let r := Mailbox.interact mb player now in
  (snd r = true <->
   Mailbox.isPlayerNearby mb player = true /\
   (500 <= now - Mailbox.lastInteractionTime mb)%Z) /\
  (snd r = false -> fst r = mb) /\
  (snd r = true ->
   Mailbox.lastInteractionTime (fst r) = now /\
   Mailbox.isActive (fst r) = true /\
   ((now2 - now < 500)%Z ->
    Mailbox.interact (fst r) player2 now2 = (fst r, false))).
Proof.
  intro r. subst r.
  remember (Mailbox.interact mb player now) as r eqn:Hr.
  unfold Mailbox.interact in Hr.
  destruct (Mailbox.isPlayerNearby mb player) eqn:En; cbn [negb] in Hr.
  - destruct (now - Mailbox.lastInteractionTime mb <? 500)%Z eqn:Et;
      subst r; cbn [fst snd].
    + apply Z.ltb_lt in Et. repeat split; try discriminate.
      intros [_ H]. lia.
    + apply Z.ltb_ge in Et. repeat split; try discriminate; try assumption.
      intro Hsoon. unfold Mailbox.interact.
      cbn [Mailbox.lastInteractionTime].
      destruct (negb _); [reflexivity|].
      replace (now2 - now <? 500)%Z with true
        by (symmetry; apply Z.ltb_lt; exact Hsoon).
      reflexivity.
  - subst r. cbn [fst snd]. repeat split; try discriminate.
    intros [H _]. discriminate H.
Qed.

Lemma interact_spec_witness :
  let mb := Mailbox.new "obj_mailbox" in
  let player :=
    GameObject.mk (Fin 760) (Fin 340) (Fin 16) (Fin 32) "obj_player" in
  let r := Mailbox.interact mb player 1000 in
  Mailbox.interact (fst r) nearPlayer 1100 = (fst r, false).
Proof.
  intros mb player r.
  apply (proj2 (proj2 (interact_spec mb player nearPlayer 1000 1100)));
    [reflexivity|lia].
Defined.

(** ** The event emitter *)

Lemma get_set_same (m : list (string * list EventEmitter.callback))
    (ev : string) (l : list EventEmitter.callback) :
  EventEmitter.get (EventEmitter.set m ev l) ev = Some l.
Proof.
  induction m as [|[k v] m IH]; cbn [EventEmitter.set EventEmitter.get].
  - rewrite String.eqb_refl. reflexivity.
  - destruct (String.eqb k ev) eqn:E; cbn [EventEmitter.get]; rewrite E;
      [reflexivity|exact IH].
Qed.

Lemma set_get_same (m : list (string * list EventEmitter.callback))
    (ev : string) (l : list EventEmitter.callback) :
  EventEmitter.get m ev = Some l -> EventEmitter.set m ev l = m.
Proof.
  induction m as [|[k v] m IH]; cbn [EventEmitter.set EventEmitter.get];
    [discriminate|].
  destruct (String.eqb k ev) eqn:E.
  - intros [= ->]. reflexivity.
  - intro H. rewrite (IH H). reflexivity.
Qed.

Lemma set_set (m : list (string * list EventEmitter.callback))
    (ev : string) (l l' : list EventEmitter.callback) :
  EventEmitter.set (EventEmitter.set m ev l) ev l' = EventEmitter.set m ev l'.
Proof.
  induction m as [|[k v] m IH]; cbn [EventEmitter.set].
  - rewrite String.eqb_refl. reflexivity.
  - destruct (String.eqb k ev) eqn:E; cbn [EventEmitter.set]; rewrite E;
      [reflexivity|rewrite IH; reflexivity].
Qed.

Lemma delete_set_absent (m : list (string * list EventEmitter.callback))
    (ev : string) (l : list EventEmitter.callback) :
  EventEmitter.get m ev = None ->
  EventEmitter.delete (EventEmitter.set m ev l) ev = m.
Proof.
  unfold EventEmitter.delete.
  induction m as [|[k v] m IH];
    cbn [EventEmitter.set EventEmitter.get filter fst].
  - rewrite String.eqb_refl. reflexivity.
  - destruct (String.eqb k ev) eqn:E; [discriminate|].
    intro H. cbn [filter fst]. rewrite E. cbn [negb].
    rewrite (IH H). reflexivity.
Qed.

Lemma callback_eqb_eq (a b : EventEmitter.callback) :
  EventEmitter.callback_eqb a b = true <-> a = b.
Proof.
  destruct a as [i|w i], b as [j|w' j]; cbn [EventEmitter.callback_eqb].
  - rewrite Nat.eqb_eq. split; [intros ->; reflexivity|intros [= ->]; reflexivity].
  - split; discriminate.
  - split; discriminate.
  - rewrite andb_true_iff, !Nat.eqb_eq.
    split; [intros [-> ->]; reflexivity|intros [= -> ->]; split; reflexivity].
Qed.

Lemma indexOf_fresh (cb : EventEmitter.callback)
    (l : list EventEmitter.callback) :
  EventEmitter.indexOf cb l = None ->
  EventEmitter.indexOf cb (l ++ [cb]) = Some (List.length l).
Proof.
  induction l as [|c l IH]; cbn [EventEmitter.indexOf app List.length].
  - intros _. replace (EventEmitter.callback_eqb cb cb) with true
      by (symmetry; apply callback_eqb_eq; reflexivity).
    reflexivity.
  - destruct (EventEmitter.callback_eqb c cb); [discriminate|].
    destruct (EventEmitter.indexOf cb l); [discriminate|].
    intros _. rewrite (IH eq_refl). reflexivity.
Qed.

Lemma removeAt_last (l : list EventEmitter.callback) (cb : EventEmitter.callback) :
  EventEmitter.removeAt (List.length l) (l ++ [cb]) = l.
Proof.
  unfold EventEmitter.removeAt.
  rewrite firstn_app, Nat.sub_diag, firstn_all. cbn [firstn].
  rewrite skipn_all2 by (rewrite length_app; cbn [List.length]; lia).
  rewrite !app_nil_r. reflexivity.
Qed.

Lemma skipn_nth_error (A : Type) (l : list A) (k : nat) (x : A) :
  nth_error l k = Some x -> skipn k l = x :: skipn (S k) l.
Proof.
  revert k. induction l as [|a l IH]; intros [|k]; cbn; try discriminate.
  - intros [= ->]. reflexivity.
  - intro H. apply IH. exact H.
Qed.

(** Calling listeners that leave the emitter alone: every index below
    the length runs once, in order, and the emitter is as it was. *)
Lemma forEachFrom_inert (throws : nat -> bool) (ev : string)
    (e : EventEmitter.t) (fuel : nat) :
  Forall (inert throws) (EventEmitter.listenersOf e ev) ->
  forall (k : nat) (log : list nat),
    (List.length (EventEmitter.listenersOf e ev) <= k + fuel)%nat ->
    EventEmitter.forEachFrom throws fuel k e ev log =
    (e, log ++ map calledId (skipn k (EventEmitter.listenersOf e ev))).
Proof.
  intro Hall. induction fuel as [|fuel IH]; intros k log Hlen.
  - cbn [EventEmitter.forEachFrom].
    rewrite skipn_all2 by lia. cbn [map]. rewrite app_nil_r. reflexivity.
  - cbn [EventEmitter.forEachFrom].
    destruct (nth_error (EventEmitter.listenersOf e ev) k) as [cb|] eqn:En.
    + assert (Hcb : inert throws cb).
      { rewrite Forall_forall in Hall. apply Hall.
        eapply nth_error_In. exact En. }
      assert (Hcall : EventEmitter.call throws e ev cb log =
                      (e, log ++ [calledId cb])).
      { destruct cb as [i|w i]; cbn [EventEmitter.call calledId inert] in *;
          [reflexivity|rewrite Hcb; reflexivity]. }
      rewrite Hcall. cbn [fst snd]. rewrite IH by lia.
      f_equal. rewrite <- app_assoc. f_equal.
      rewrite (skipn_nth_error _ _ _ _ En). reflexivity.
    + apply nth_error_None in En. rewrite IH by lia.
      rewrite !skipn_all2 by lia. reflexivity.
Qed.

(** X25. [emit] on listeners that leave the emitter alone, functions of the
    caller and closures of [once] whose function throws, runs each of
    them once in the order of registration, answers [true], and leaves
    the emitter as it was: a closure of [once] whose function throws
    stays registered. *)
Theorem emit_inert (throws : nat -> bool) (e : EventEmitter.t) (ev : string)
    (l : list EventEmitter.callback) :
  EventEmitter.get (EventEmitter.events e) ev = Some l ->
  Forall (inert throws) l ->
  EventEmitter.emit throws e ev = (e, true, map calledId l).
Proof.
  intros Hget Hall. unfold EventEmitter.emit. rewrite Hget.
  assert (Hl : EventEmitter.listenersOf e ev = l)
    by (unfold EventEmitter.listenersOf; rewrite Hget; reflexivity).
  rewrite forEachFrom_inert; rewrite ?Hl; try assumption; [|lia].
  reflexivity.
Qed.

Lemma emit_inert_witness :
  let e := EventEmitter.once
             (EventEmitter.on EventEmitter.new "keydown" (EventEmitter.Fn 1))
             "keydown" 7 2 in
  EventEmitter.emit (fun _ => true) e "keydown" = (e, true, [1; 2]%nat).
Proof.
  intro e.
  apply (emit_inert (fun _ => true) e "keydown"
           [EventEmitter.Fn 1; EventEmitter.OnceOf 7 2]).
  - reflexivity.
  - repeat constructor.
Defined.

Lemma forEachFrom_step (throws : nat -> bool) (fuel k : nat)
    (e : EventEmitter.t) (ev : string) (log : list nat)
    (cb : EventEmitter.callback) :
  nth_error (EventEmitter.listenersOf e ev) k = Some cb ->
  EventEmitter.forEachFrom throws (S fuel) k e ev log =
  EventEmitter.forEachFrom throws fuel (S k)
    (fst (EventEmitter.call throws e ev cb log)) ev
    (snd (EventEmitter.call throws e ev cb log)).
Proof.
  intro H. cbn [EventEmitter.forEachFrom]. rewrite H. reflexivity.
Qed.

(** X26. A closure of [once] removes itself from the array that [emit] is
    walking, so the listener registered right after it is passed over:
    with listeners [once a], [b], then functions [rest], one [emit]
    runs [a] and the functions of [rest] and not [b]; afterwards the
    listeners are [b] and [rest]. *)
Theorem emit_once_skips_next (throws : nat -> bool) (e : EventEmitter.t)
    (ev : string) (w a b : nat) (rest : list EventEmitter.callback) :
  EventEmitter.get (EventEmitter.events e) ev =
    Some (EventEmitter.OnceOf w a :: EventEmitter.Fn b :: rest) ->
  Forall (inert throws) rest ->
  throws a = false ->
  let r := EventEmitter.emit throws e ev in
  snd (fst r) = true /\
  snd r = a :: map calledId rest /\
  EventEmitter.listeners (fst (fst r)) ev = EventEmitter.Fn b :: rest.
Proof.
  intros Hget Hall Ha r.
  set (e1 := EventEmitter.withEvents e
               (EventEmitter.set (EventEmitter.events e) ev
                  (EventEmitter.Fn b :: rest))).
  assert (Hl0 : EventEmitter.listenersOf e ev =
                EventEmitter.OnceOf w a :: EventEmitter.Fn b :: rest)
    by (unfold EventEmitter.listenersOf; rewrite Hget; reflexivity).
  assert (Hcall : EventEmitter.call throws e ev (EventEmitter.OnceOf w a) [] =
                  (e1, [a])).
  { unfold EventEmitter.call. rewrite Ha.
    unfold EventEmitter.off. rewrite Hget.
    cbn [EventEmitter.indexOf EventEmitter.callback_eqb].
    rewrite !Nat.eqb_refl. reflexivity. }
  assert (Hl : EventEmitter.listenersOf e1 ev = EventEmitter.Fn b :: rest).
  { unfold EventEmitter.listenersOf. subst e1.
    cbn [EventEmitter.withEvents EventEmitter.events].
    rewrite get_set_same. reflexivity. }
  assert (Hall1 : Forall (inert throws) (EventEmitter.listenersOf e1 ev))
    by (rewrite Hl; constructor; [exact I|exact Hall]).
  assert (Hlen : (List.length (EventEmitter.listenersOf e1 ev)
                  <= 1 + S (List.length rest))%nat)
    by (rewrite Hl; cbn [List.length]; lia).
  assert (Hr : r = (e1, true, a :: map calledId rest)).
  { subst r. unfold EventEmitter.emit. rewrite Hget.
    cbn [List.length].
    rewrite (forEachFrom_step throws _ 0 e ev []
               (EventEmitter.OnceOf w a))
      by (rewrite Hl0; reflexivity).
    rewrite Hcall. cbn [fst snd].
    rewrite (forEachFrom_inert throws ev e1 _ Hall1 1%nat _ Hlen).
    rewrite Hl. reflexivity. }
  rewrite Hr. cbn [fst snd]. repeat split.
  unfold EventEmitter.listeners. exact Hl.
Qed.

Lemma emit_once_skips_next_witness :
  let e := EventEmitter.on
             (EventEmitter.on
                (EventEmitter.once EventEmitter.new "interact" 7 1)
                "interact" (EventEmitter.Fn 2))
             "interact" (EventEmitter.Fn 3) in
  let r := EventEmitter.emit (fun _ => false) e "interact" in
  snd (fst r) = true /\
  snd r = 1%nat :: map calledId [EventEmitter.Fn 3] /\
  EventEmitter.listeners (fst (fst r)) "interact" =
    [EventEmitter.Fn 2; EventEmitter.Fn 3].
Proof.
  intro e.
  apply (emit_once_skips_next (fun _ => false) e "interact" 7 1 2
           [EventEmitter.Fn 3]).
  - reflexivity.
  - repeat constructor.
  - reflexivity.
Defined.

Lemma noEmpty_set (m : list (string * list EventEmitter.callback))
    (ev : string) (l : list EventEmitter.callback) :
  Forall (fun kv : string * list EventEmitter.callback => snd kv <> []) m ->
  l <> [] ->
  Forall (fun kv : string * list EventEmitter.callback => snd kv <> [])
         (EventEmitter.set m ev l).
Proof.
  intros Hm Hl. induction Hm as [|[k v] m Hkv Hm' IH]; cbn [EventEmitter.set].
  - constructor; [exact Hl|constructor].
  - destruct (String.eqb k ev); constructor; cbn [snd] in *; assumption.
Qed.

Lemma noEmpty_delete (m : list (string * list EventEmitter.callback))
    (ev : string) :
  Forall (fun kv : string * list EventEmitter.callback => snd kv <> []) m ->
  Forall (fun kv : string * list EventEmitter.callback => snd kv <> [])
         (EventEmitter.delete m ev).
Proof.
  intro Hm. unfold EventEmitter.delete. rewrite Forall_forall in *.
  intros kv Hin. apply filter_In in Hin. apply Hm. tauto.
Qed.

Lemma noEmpty_get (m : list (string * list EventEmitter.callback))
    (ev : string) (l : list EventEmitter.callback) :
  Forall (fun kv : string * list EventEmitter.callback => snd kv <> []) m ->
  EventEmitter.get m ev = Some l -> l <> [].
Proof.
  intro Hm. induction Hm as [|[k v] m Hkv _ IH]; cbn [EventEmitter.get];
    [discriminate|].
  destruct (String.eqb k ev); [intros [= <-]; exact Hkv|exact IH].
Qed.

Lemma get_in_names (m : list (string * list EventEmitter.callback))
    (ev : string) :
  In ev (map fst m) <-> EventEmitter.get m ev <> None.
Proof.
  induction m as [|[k v] m IH]; cbn [map fst In EventEmitter.get].
  - split; [contradiction|intro H; apply H; reflexivity].
  - destruct (String.eqb_spec k ev) as [->|Hne].
    + split; [discriminate|intros _; left; reflexivity].
    + rewrite <- IH. split; [intros [H|H]; [contradiction|exact H]|].
      intro H. right. exact H.
Qed.

Lemma noEmpty_off (e : EventEmitter.t) (ev : string)
    (cb : EventEmitter.callback) :
  noEmptyEvent e -> noEmptyEvent (fst (EventEmitter.off e ev cb)).
Proof.
  unfold noEmptyEvent, EventEmitter.off. intro H.
  destruct (EventEmitter.get (EventEmitter.events e) ev) as [l|]; [|exact H].
  destruct (EventEmitter.indexOf cb l) as [i|]; [|exact H].
  destruct (EventEmitter.removeAt i l) as [|c l'] eqn:El;
    cbn [fst EventEmitter.withEvents EventEmitter.events].
  - apply noEmpty_delete. exact H.
  - apply noEmpty_set; [exact H|discriminate].
Qed.

Lemma noEmpty_forEachFrom (throws : nat -> bool) (ev : string) (fuel : nat) :
  forall (k : nat) (e : EventEmitter.t) (log : list nat),
    noEmptyEvent e ->
    noEmptyEvent (fst (EventEmitter.forEachFrom throws fuel k e ev log)).
Proof.
  induction fuel as [|fuel IH]; intros k e log H; [exact H|].
  cbn [EventEmitter.forEachFrom].
  destruct (nth_error (EventEmitter.listenersOf e ev) k) as [cb|];
    [|apply IH; exact H].
  apply IH. destruct cb as [i|w i]; cbn [EventEmitter.call]; [exact H|].
  destruct (throws i); [exact H|]. cbn [fst]. apply noEmpty_off. exact H.
Qed.

Lemma noEmpty_step (throws : nat -> bool) (e : EventEmitter.t) (op : EmitterOp) :
  noEmptyEvent e -> noEmptyEvent (applyEmitterOp throws e op).
Proof.
  intro H. destruct op as [ev cb|ev cb|ev|[ev|]]; cbn [applyEmitterOp].
  - unfold noEmptyEvent, EventEmitter.on.
    cbn [EventEmitter.withEvents EventEmitter.events].
    apply noEmpty_set; [exact H|].
    destruct (EventEmitter.listenersOf e ev); discriminate.
  - apply noEmpty_off. exact H.
  - unfold EventEmitter.emit.
    destruct (EventEmitter.get (EventEmitter.events e) ev); [|exact H].
    cbn [fst]. apply noEmpty_forEachFrom. exact H.
  - unfold EventEmitter.removeAllListeners, noEmptyEvent.
    destruct (negb (String.eqb ev ""));
      cbn [EventEmitter.withEvents EventEmitter.events];
      [apply noEmpty_delete; exact H|constructor].
  - constructor.
Qed.

Lemma noEmpty_reachable (throws : nat -> bool) (ops : list EmitterOp) :
  noEmptyEvent (fold_left (applyEmitterOp throws) ops EventEmitter.new).
Proof.
  assert (H0 : noEmptyEvent EventEmitter.new) by constructor.
  revert H0. generalize EventEmitter.new.
  induction ops as [|op ops IH]; intros e He; [exact He|].
  cbn [fold_left]. apply IH. apply noEmpty_step. exact He.
Qed.

(** X27. No event outlives its listeners: after any sequence of [on], [off],
    [emit] and [removeAllListeners] on a new emitter, an event is among
    [eventNames] exactly when it has a listener, and [emit] answers
    [true] exactly then. *)
Theorem emit_true_iff_listeners (throws : nat -> bool) (ops : list EmitterOp)
    (ev : string) :
  let e := fold_left (applyEmitterOp throws) ops EventEmitter.new in
  (snd (fst (EventEmitter.emit throws e ev)) = true <->
   (0 < EventEmitter.listenerCount e ev)%nat) /\
  (In ev (EventEmitter.eventNames e) <->
   (0 < EventEmitter.listenerCount e ev)%nat).
Proof.
  intro e. pose proof (noEmpty_reachable throws ops) as Hne. fold e in Hne.
  unfold EventEmitter.eventNames. rewrite get_in_names.
  unfold EventEmitter.emit, EventEmitter.listenerCount, EventEmitter.listenersOf.
  destruct (EventEmitter.get (EventEmitter.events e) ev) as [l|] eqn:Eg;
    cbn [fst snd List.length].
  - pose proof (noEmpty_get _ _ _ Hne Eg) as Hl.
    destruct l as [|c l]; [contradiction|]. cbn [List.length].
    split; split; intros; try reflexivity; try discriminate; lia.
  - split; split; intro H; try discriminate; try lia. contradiction.
Qed.

(** X28. Registering a listener that the event does not have yet and
    removing it again gives back the emitter, names and order of all
    events included, whatever calls the emitter received before. *)
Theorem off_on_roundtrip (throws : nat -> bool) (ops : list EmitterOp)
    (ev : string) (cb : EventEmitter.callback) :
  let e := fold_left (applyEmitterOp throws) ops EventEmitter.new in
  EventEmitter.indexOf cb (EventEmitter.listeners e ev) = None ->
  EventEmitter.off (EventEmitter.on e ev cb) ev cb = (e, true).
Proof.
  intros e Hfresh. pose proof (noEmpty_reachable throws ops) as Hne. fold e in Hne.
  clearbody e. destruct e as [m mx].
  unfold EventEmitter.listeners, EventEmitter.listenersOf, noEmptyEvent in *.
  unfold EventEmitter.off, EventEmitter.on, EventEmitter.listenersOf.
  cbn [EventEmitter.withEvents EventEmitter.events EventEmitter.maxListeners] in *.
  rewrite get_set_same.
  destruct (EventEmitter.get m ev) as [l|] eqn:Eg.
  - rewrite (indexOf_fresh cb l Hfresh), removeAt_last.
    pose proof (noEmpty_get _ _ _ Hne Eg) as Hl.
    destruct l as [|c l]; [contradiction|].
    rewrite set_set, (set_get_same _ _ _ Eg). reflexivity.
  - cbn [app EventEmitter.indexOf].
    replace (EventEmitter.callback_eqb cb cb) with true
      by (symmetry; apply callback_eqb_eq; reflexivity).
    cbn [EventEmitter.removeAt firstn skipn app].
    rewrite (delete_set_absent _ _ _ Eg). reflexivity.
Qed.

Lemma off_on_roundtrip_witness :
  let e := fold_left (applyEmitterOp (fun _ => false))
             [EOn "keydown" (EventEmitter.Fn 1);
              EOn "interact" (EventEmitter.Fn 2)] EventEmitter.new in
  EventEmitter.off (EventEmitter.on e "keydown" (EventEmitter.Fn 3))
    "keydown" (EventEmitter.Fn 3) = (e, true).
Proof.
  intro e.
  apply (off_on_roundtrip (fun _ => false)
           [EOn "keydown" (EventEmitter.Fn 1);
            EOn "interact" (EventEmitter.Fn 2)]
           "keydown" (EventEmitter.Fn 3)).
  reflexivity.
Defined.

(** ** The error handler *)

Lemma counts_get_set_same (m : list (string * nat)) (key : string) (v : nat) :
  ErrorHandler.get (ErrorHandler.set m key v) key = Some v.
Proof.
  induction m as [|[k v0] m IH]; cbn [ErrorHandler.set ErrorHandler.get].
  - rewrite String.eqb_refl. reflexivity.
  - destruct (String.eqb k key) eqn:E; cbn [ErrorHandler.get]; rewrite E;
      [reflexivity|exact IH].
Qed.

Lemma handleSpecificErrors_keeps (st : ErrorHandler.t)
    (error : ErrorHandler.Error) (context : string) :
  clearsCounts error = false ->
  fst (ErrorHandler.handleSpecificErrors st error context) = st /\
  warnings (snd (ErrorHandler.handleSpecificErrors st error context)) = O.
Proof.
  unfold clearsCounts, ErrorHandler.handleSpecificErrors.
  destruct (String.eqb (ErrorHandler.name error) "TypeError" &&
            ErrorHandler.includes (ErrorHandler.message error) "canvas");
    [split; reflexivity|].
  destruct (String.eqb (ErrorHandler.name error) "NotAllowedError");
    [split; reflexivity|].
  destruct (ErrorHandler.includes (ErrorHandler.message error) "Failed to load");
    [split; reflexivity|].
  destruct (String.eqb (ErrorHandler.name error) "QuotaExceededError");
    [discriminate|split; reflexivity].
Qed.

Lemma handleSpecificErrors_clears (st : ErrorHandler.t)
    (error : ErrorHandler.Error) (context : string) :
  clearsCounts error = true ->
  ErrorHandler.handleSpecificErrors st error context =
  (ErrorHandler.clearCache st, [ErrorHandler.QuotaHint]).
Proof.
  unfold clearsCounts, ErrorHandler.handleSpecificErrors.
  destruct (String.eqb (ErrorHandler.name error) "TypeError" &&
            ErrorHandler.includes (ErrorHandler.message error) "canvas");
    [discriminate|].
  destruct (String.eqb (ErrorHandler.name error) "NotAllowedError");
    [discriminate|].
  destruct (ErrorHandler.includes (ErrorHandler.message error) "Failed to load");
    [discriminate|].
  destruct (String.eqb (ErrorHandler.name error) "QuotaExceededError");
    [reflexivity|discriminate].
Qed.

Lemma warnings_app (a b : list ErrorHandler.line) :
  warnings (a ++ b) = (warnings a + warnings b)%nat.
Proof.
  induction a as [|l a IH]; [reflexivity|].
  destruct l; cbn [app warnings]; rewrite IH; reflexivity.
Qed.

Lemma handleError_limited (st : ErrorHandler.t) (error : ErrorHandler.Error)
    (context : string) :
  (ErrorHandler.maxErrorsPerType st <= countOf st error context)%nat ->
  ErrorHandler.handleError st error context = (st, []).
Proof.
  intro H. unfold ErrorHandler.handleError.
  fold (countOf st error context).
  replace (ErrorHandler.maxErrorsPerType st <=? countOf st error context)%nat
    with true by (symmetry; apply Nat.leb_le; exact H).
  reflexivity.
Qed.

Lemma handleError_counted (st : ErrorHandler.t) (error : ErrorHandler.Error)
    (context : string) :
  (countOf st error context < ErrorHandler.maxErrorsPerType st)%nat ->
  clearsCounts error = false ->
  let r := ErrorHandler.handleError st error context in
  warnings (snd r) = 1%nat /\
  countOf (fst r) error context = S (countOf st error context) /\
  ErrorHandler.maxErrorsPerType (fst r) = ErrorHandler.maxErrorsPerType st.
Proof.
  intros H Hc r. subst r. unfold ErrorHandler.handleError.
  fold (countOf st error context).
  replace (ErrorHandler.maxErrorsPerType st <=? countOf st error context)%nat
    with false by (symmetry; apply Nat.leb_gt; exact H).
  match goal with |- context [ErrorHandler.handleSpecificErrors ?s _ _] =>
    destruct (handleSpecificErrors_keeps s error context Hc) as [Hk Hw];
    set (st1 := s) in * end.
  cbn [fst snd]. rewrite Hk, !warnings_app, Hw. cbn [warnings].
  replace (warnings (if String.eqb (ErrorHandler.logLevel st) "debug"
                     then [ErrorHandler.Trace] else [])) with O
    by (destruct (String.eqb _ _); reflexivity).
  repeat split.
  unfold countOf at 1. subst st1. cbn [ErrorHandler.errorCounts].
  rewrite counts_get_set_same. lia.
Qed.

Lemma reportTimes_counts (n : nat) :
  forall (st : ErrorHandler.t) (error : ErrorHandler.Error) (context : string),
    clearsCounts error = false ->
    let r := reportTimes n st error context in
    let M := ErrorHandler.maxErrorsPerType st in
    let c := countOf st error context in
    warnings (snd r) = Nat.min n (M - c) /\
    countOf (fst r) error context =
      (if (M <=? c)%nat then c else Nat.min (c + n) M) /\
    ErrorHandler.maxErrorsPerType (fst r) = M.
Proof.
  induction n as [|n IH]; intros st error context Hc r M c; subst r.
  - cbn [reportTimes fst snd warnings]. repeat split.
    destruct (M <=? c)%nat eqn:E; [reflexivity|].
    apply Nat.leb_gt in E. lia.
  - cbn [reportTimes fst snd].
    destruct (M <=? c)%nat eqn:E.
    + apply Nat.leb_le in E.
      rewrite (handleError_limited st error context E). cbn [fst snd app].
      destruct (IH st error context Hc) as (H1 & H2 & H3).
      cbv zeta in H1, H2, H3. fold M in H1, H2, H3. fold c in H1, H2.
      rewrite H1, H2, H3.
      replace (M <=? c)%nat with true by (symmetry; apply Nat.leb_le; exact E).
      repeat split. lia.
    + apply Nat.leb_gt in E.
      destruct (handleError_counted st error context E Hc) as (Hw & Hc1 & Hm1).
      cbv zeta in Hw, Hc1, Hm1.
      destruct (IH (fst (ErrorHandler.handleError st error context))
                   error context Hc) as (H1 & H2 & H3).
      cbv zeta in H1, H2, H3. rewrite Hc1, Hm1 in H1, H2. rewrite Hm1 in H3.
      fold M in H1, H2, H3. fold c in H1, H2.
      rewrite warnings_app, Hw, H1, H2, H3.
      repeat split; [lia|].
      destruct (M <=? S c)%nat eqn:E1;
        [apply Nat.leb_le in E1|apply Nat.leb_gt in E1]; lia.
Qed.

(** X29. The limit on repeated errors: of [n] reports in a row of the same
    error to a handler that holds no count for it yet, the first
    [min n 10] print the line of the error, the [console.warn] of
    [handleError] itself (the hints that [handleSpecificErrors] adds to
    such a report are other lines); the count kept for the error is
    [min n 10]; and after ten reports a further one prints nothing and
    changes nothing.  This is for every error that does not reach the
    branch that clears the counts. *)
Theorem error_reports_are_limited (n : nat) (error : ErrorHandler.Error)
    (context : string) :
  clearsCounts error = false ->
  let r := reportTimes n ErrorHandler.initial error context in
  warnings (snd r) = Nat.min n 10 /\
  countOf (fst r) error context = Nat.min n 10 /\
  ((10 <= n)%nat ->
   ErrorHandler.handleError (fst r) error context = (fst r, [])).
Proof.
  intros Hc r.
  destruct (reportTimes_counts n ErrorHandler.initial error context Hc)
    as (H1 & H2 & H3).
  cbv zeta in H1, H2, H3. fold r in H1, H2, H3.
  change (countOf ErrorHandler.initial error context) with O in H1, H2.
  change (ErrorHandler.maxErrorsPerType ErrorHandler.initial) with 10%nat
    in H1, H2, H3.
  cbn [Nat.leb] in H2. rewrite H1, H2.
  split; [f_equal|split]; try reflexivity.
  intro Hn. apply handleError_limited. rewrite H3, H2.
  cbn [Nat.add]. lia.
Qed.

Lemma error_reports_are_limited_witness :
  let error := ErrorHandler.mkError "TypeError" "player is null" in
  let r := reportTimes 25 ErrorHandler.initial error "Game.update" in
  warnings (snd r) = Nat.min 25 10 /\
  countOf (fst r) error "Game.update" = Nat.min 25 10 /\
  ErrorHandler.handleError (fst r) error "Game.update" = (fst r, []).
Proof.
  intros error r.
  destruct (error_reports_are_limited 25 error "Game.update" eq_refl)
    as (H1 & H2 & H3).
  split; [exact H1|]. split; [exact H2|]. apply H3. lia.
Defined.

(** X30. An error that reaches the clearing branch, a [QuotaExceededError]
    that no earlier branch takes, is never limited: its own count is
    wiped with all the others each time, so every one of [n] reports in
    a row is warned about. *)
Theorem quota_errors_are_never_limited (n : nat) (error : ErrorHandler.Error)
    (context : string) :
  clearsCounts error = true ->
  let r := reportTimes n ErrorHandler.initial error context in
  warnings (snd r) = n /\
  ErrorHandler.errorCounts (fst r) = [].
Proof.
  intros Hc r. subst r.
  assert (H : forall st,
             ErrorHandler.errorCounts st = [] ->
             ErrorHandler.maxErrorsPerType st = 10%nat ->
             warnings (snd (reportTimes n st error context)) = n /\
             ErrorHandler.errorCounts (fst (reportTimes n st error context)) = []).
  { induction n as [|n IH]; intros st He Hm; [split; [reflexivity|exact He]|].
    cbn [reportTimes fst snd].
    assert (Hh : ErrorHandler.handleError st error context =
                 (ErrorHandler.clearCache
                    {| ErrorHandler.logLevel := ErrorHandler.logLevel st;
                       ErrorHandler.errorCounts :=
                         ErrorHandler.set []
                           (context ++ ":" ++ ErrorHandler.message error)%string
                           1;
                       ErrorHandler.maxErrorsPerType := 10 |},
                  [ErrorHandler.WarnError context (ErrorHandler.message error)]
                  ++ (if String.eqb (ErrorHandler.logLevel st) "debug"
                      then [ErrorHandler.Trace] else [])
                  ++ [ErrorHandler.QuotaHint])).
    { unfold ErrorHandler.handleError. rewrite He, Hm.
      cbn [ErrorHandler.get Nat.leb Nat.add].
      rewrite handleSpecificErrors_clears by exact Hc. reflexivity. }
    rewrite Hh. cbn [fst snd].
    match goal with |- context [reportTimes n ?s error context] =>
      destruct (IH s eq_refl eq_refl) as [H1 H2] end.
    rewrite H2, !warnings_app, H1. cbn [warnings].
    replace (warnings (if String.eqb (ErrorHandler.logLevel st) "debug"
                       then [ErrorHandler.Trace] else [])) with O
      by (destruct (String.eqb _ _); reflexivity).
    split; [lia|reflexivity]. }
  apply H; reflexivity.
Qed.

Lemma quota_errors_are_never_limited_witness :
  let error := ErrorHandler.mkError "QuotaExceededError" "storage is full" in
  let r := reportTimes 25 ErrorHandler.initial error "AssetLoader" in
  warnings (snd r) = 25%nat /\
  ErrorHandler.errorCounts (fst r) = [].
Proof.
  intro error.
  apply (quota_errors_are_never_limited 25 error "AssetLoader"). reflexivity.
Defined.

Lemma running_loop_is_scheduled_witness :
  let g := fold_left applyLoopOp [LStart 0; LFrame 16; LPause; LResume; LFrame 33]
             GameLoop.new in
  (1 <= GameLoop.scheduled g)%nat.
Proof.
  intro g.
  apply (running_loop_is_scheduled
           [LStart 0; LFrame 16; LPause; LResume; LFrame 33]).
  reflexivity.
Defined.
